(** * Tetris Enhanced: the rules engine of [tetris_enhanced.py]

    A shallow embedding of the game logic of [src/tetris_enhanced.py]
    (shape catalog, collision, locking, line clearing, scoring, rotation with
    kicks, spawning, hold, hard drop, save/load and the parts of the host
    loop [run] that call them), followed by the properties of the
    specification that are checked against it.

    Conventions of the embedding:
    - Python [int] is [Z]; [str] is [string]; [None]-or-value is [option].
    - Piece kinds and the T-spin flag are strings, as in the source: nothing
      in the source restricts them to the seven tags.
    - A Python exception is the [Raise] outcome of the [result] monad.
    - [random.shuffle] is an oracle: the section variable [shuffle_at] gives
      the outcome of the n-th shuffle of [list(SHAPES.keys())], and the state
      counts the shuffles made so far.
    - Floats are not evaluated: [fall_interval] records symbolically which
      expression was stored in it; the animation clock fields
      [hard_drop_duration] and [hard_drop_start_time] are left out. *)

From Stdlib Require Import ZArith List String Ascii Bool Lia.
From stdpp Require Import base list strings.
Import ListNotations.

Local Open Scope string_scope.
Local Open Scope list_scope.
Local Open Scope Z_scope.

(** ** Exceptions and effects *)

Inductive exn : Type := KeyError | IndexError | ZeroDivisionError.

(** The result of a computation that can raise. [Fuel] is the outcome of
    a [while] loop cut off by the embedding's step budget; Python has no
    such outcome, and only [hard_drop_distance] can produce it. *)
Inductive result (A : Type) : Type :=
| Ok (a : A)
| Raise (e : exn)
| Fuel.
Arguments Ok {A} a.
Arguments Raise {A} e.
Arguments Fuel {A}.

#[global] Instance result_ret : MRet result := fun A a => Ok a.
#[global] Instance result_bind : MBind result :=
  fun A B f m =>
    match m with
    | Ok a => f a
    | Raise e => Raise e
    | Fuel => Fuel
    end.

(** Code that draws from the global [random] module: the state threaded
    through is the number of shuffles made so far. *)
Definition Rand (A : Type) : Type := nat -> result (A * nat).

#[global] Instance Rand_ret : MRet Rand := fun A a n => Ok (a, n).
#[global] Instance Rand_bind : MBind Rand :=
  fun A B f m n =>
    match m n with
    | Ok (a, n') => f a n'
    | Raise e => Raise e
    | Fuel => Fuel
    end.

#[global] Instance result_fmap : FMap result :=
  fun A B f m =>
    match m with
    | Ok a => Ok (f a)
    | Raise e => Raise e
    | Fuel => Fuel
    end.

Definition lift {A : Type} (m : result A) : Rand A :=
  fun n => match m with Ok a => Ok (a, n) | Raise e => Raise e | Fuel => Fuel end.

(** [d[k]] on a dict kept as an association list (insertion order, as
    [SHAPES.keys()] sees it). *)
Fixpoint dict_get {V : Type} (d : list (string * V)) (k : string) : option V :=
  match d with
  | [] => None
  | (k', v) :: d' => if String.eqb k' k then Some v else dict_get d' k
  end.

Definition keys {V : Type} (d : list (string * V)) : list string := map fst d.

Definition subscript {V : Type} (d : list (string * V)) (k : string) : result V :=
  match dict_get d k with Some v => Ok v | None => Raise KeyError end.

(** Python list indexing: a negative index counts from the end, anything
    outside [-len, len) raises [IndexError]. *)
Definition py_index (len : nat) (i : Z) : option nat :=
  if (0 <=? i) && (i <? Z.of_nat len) then Some (Z.to_nat i)
  else if (- Z.of_nat len <=? i) && (i <? 0) then Some (Z.to_nat (Z.of_nat len + i))
  else None.

Definition py_getitem {A : Type} (l : list A) (i : Z) : result A :=
  match py_index (length l) i with
  | Some n => match l !! n with Some a => Ok a | None => Raise IndexError end
  | None => Raise IndexError
  end.

(** [a % n] *)
Definition py_mod (a n : Z) : result Z :=
  if n =? 0 then Raise ZeroDivisionError else Ok (a mod n).

Definition py_setitem {A : Type} (l : list A) (i : Z) (v : A) : result (list A) :=
  match py_index (length l) i with
  | Some n => Ok (<[n := v]> l)
  | None => Raise IndexError
  end.

(** ** Config *)

Definition PLAY_COLS : Z := 10.
Definition PLAY_ROWS : Z := 20.

(** ** Shape catalog *)

Definition Shape : Type := list string.

Definition SHAPES : list (string * list Shape) :=
  [ ("I", [["....";
            "IIII";
            "....";
            "...."]]);
    ("O", [["....";
            ".OO.";
            ".OO.";
            "...."]]);
    ("T", [["....";
            ".TTT";
            "..T.";
            "...."]]);
    ("S", [["....";
            "..SS";
            ".SS.";
            "...."]]);
    ("Z", [["....";
            ".ZZ.";
            "..ZZ";
            "...."]]);
    ("J", [["....";
            ".JJJ";
            ".J..";
            "...."]]);
    ("L", [["....";
            ".LLL";
            ".L..";
            "...."]]) ].

Definition ROTATIONS : list (string * nat) :=
  [("I", 2); ("O", 1); ("T", 4); ("S", 2); ("Z", 2); ("J", 4); ("L", 4)]%nat.

Definition Kick : Type := (Z * Z)%type.

Definition KICKS : list (string * list ((Z * Z) * list Kick)) :=
  [ ("JLTSZ",
      [ ((0, 1), [(0, 0); (-1, 0); (-1, -1); (0, 2); (-1, 2)]);
        ((1, 0), [(0, 0); (1, 0); (1, 1); (0, -2); (1, -2)]);
        ((1, 2), [(0, 0); (1, 0); (1, -1); (0, 2); (1, 2)]);
        ((2, 1), [(0, 0); (-1, 0); (-1, 1); (0, -2); (-1, -2)]);
        ((2, 3), [(0, 0); (1, 0); (1, 1); (0, -2); (1, -2)]);
        ((3, 2), [(0, 0); (-1, 0); (-1, -1); (0, 2); (-1, 2)]);
        ((3, 0), [(0, 0); (-1, 0); (-1, 1); (0, -2); (-1, -2)]);
        ((0, 3), [(0, 0); (1, 0); (1, -1); (0, 2); (1, 2)]) ]);
    ("I",
      [ ((0, 1), [(0, 0); (-2, 0); (1, 0); (-2, -1); (1, 2)]);
        ((1, 0), [(0, 0); (2, 0); (-1, 0); (2, 1); (-1, -2)]);
        ((1, 2), [(0, 0); (-1, 0); (2, 0); (-1, 2); (2, -1)]);
        ((2, 1), [(0, 0); (1, 0); (-2, 0); (1, -2); (-2, 1)]);
        ((2, 3), [(0, 0); (2, 0); (-1, 0); (2, 1); (-1, -2)]);
        ((3, 2), [(0, 0); (-2, 0); (1, 0); (-2, -1); (1, 2)]);
        ((3, 0), [(0, 0); (1, 0); (-2, 0); (1, -2); (-2, 1)]);
        ((0, 3), [(0, 0); (-1, 0); (2, 0); (-1, 2); (2, -1)]) ]) ].

(** [KICKS.get(which, {}).get((from_r, to_r), [(0, 0)])] *)
Fixpoint pair_get (t : list ((Z * Z) * list Kick)) (k : Z * Z) : option (list Kick) :=
  match t with
  | [] => None
  | ((a, b), v) :: t' =>
      if (a =? fst k) && (b =? snd k) then Some v else pair_get t' k
  end.

Definition kicks_for (which : string) (from_r to_r : Z) : list Kick :=
  default [(0, 0)] (pair_get (default [] (dict_get KICKS which)) (from_r, to_r)).

(** ** Utility *)

(** [g[j][i]] for a 4x4 shape. Every grid the program indexes comes from
    [ROTATED], whose grids are four strings of four characters
    ([ROTATED_frames] below), so the fallback character is never taken. *)
Definition char_at (g : Shape) (j i : nat) : ascii :=
  default "."%char (s ← g !! j; String.get i s).

Definition range4 : list nat := [0; 1; 2; 3]%nat.

Definition rotate_shape (g : Shape) : Shape :=
  map (fun r => string_of_list_ascii (map (fun c => char_at g (3 - c) r) range4)) range4.

Definition shape_eqb (a b : Shape) : bool :=
  bool_decide (a = b).

(** The de-duplication loop of [build_rotations]: [seen] is the set of keys
    met so far, [unique] the grids kept, in order. *)
Fixpoint dedupe (rots seen unique : list Shape) : list Shape :=
  match rots with
  | [] => unique
  | g :: rest =>
      if existsb (shape_eqb g) seen then dedupe rest seen unique
      else dedupe rest (g :: seen) (unique ++ [g])
  end.

Definition build_rotations (kind : string) : option (list Shape) :=
  shapes ← dict_get SHAPES kind;
  base ← head shapes;
  let r1 := rotate_shape base in
  let r2 := rotate_shape r1 in
  let r3 := rotate_shape r2 in
  let unique := dedupe [base; r1; r2; r3] [] [] in
  count ← dict_get ROTATIONS kind;
  Some (take count unique).

Definition ROTATED : list (string * list Shape) :=
  Eval vm_compute in
    omap (fun k => rots ← build_rotations k; Some (k, rots)) (keys SHAPES).

(** ** Pieces *)

Module Piece.

Record t : Type := mk { kind : string; x : Z; y : Z; r : Z }.

(** [ROTATED[self.kind][self.r % len(ROTATED[self.kind])]] *)
Definition grid (p : t) : result Shape :=
  rots ← subscript ROTATED (kind p);
  i ← py_mod (r p) (Z.of_nat (length rots));
  py_getitem rots i.

Definition cells (p : t) : result (list (Z * Z)) :=
  g ← grid p;
  Ok (flat_map (fun j =>
        flat_map (fun i =>
          if Ascii.eqb (char_at g j i) "."%char then []
          else [(x p + Z.of_nat i, y p + Z.of_nat j)])
        range4)
      range4).

End Piece.

(** ** Game state *)

(** The float stored in [fall_interval], kept as the expression that
    produced it: the dataclass default [1.0], or
    [gravity_for_level(level) = max(0.05, 0.8 * 0.9 ** (level - 1))]. *)
Inductive FallInterval : Type :=
| interval_default
| interval_of_level (level : Z).

Definition gravity_for_level (level : Z) : FallInterval := interval_of_level level.

(** The dict [to_dict] builds and [json.load] gives back. [from_dict] reads
    every key with [d.get], so every key may be missing; the values have the
    JSON type [to_dict] writes, with no other constraint. In the dict of
    the active piece the four keys may be missing too. *)
Module Saved.

Record piece : Type := mk_piece {
  kind : option string;
  x : option Z;
  y : option Z;
  r : option Z
}.

Record t : Type := mk {
  grid : option (list (list (option string)));
  bag : option (list string);
  next_queue : option (list string);
  hold : option (option string);
  can_hold : option bool;
  current : option (option piece);
  score : option Z;
  lines : option Z;
  level : option Z;
  combo : option Z;
  back_to_back : option bool;
  game_over : option bool
}.


End Saved.

Module GameState.

Record t : Type := mk {
  grid : list (list (option string));
  bag : list string;
  next_queue : list string;
  hold : option string;
  can_hold : bool;
  current : option Piece.t;
  score : Z;
  lines : Z;
  level : Z;
  combo : Z;
  back_to_back : bool;
  game_over : bool;
  paused : bool;
  fall_interval : FallInterval;
  hard_drop_anim : bool;
  hard_drop_start_y : Z;
  hard_drop_target_y : Z
  }.

Definition set_grid (v : list (list (option string))) (s : t) : t :=
  {| grid := v; bag := bag s; next_queue := next_queue s; hold := hold s;
   can_hold := can_hold s; current := current s; score := score s;
   lines := lines s; level := level s; combo := combo s;
   back_to_back := back_to_back s; game_over := game_over s;
   paused := paused s; fall_interval := fall_interval s;
   hard_drop_anim := hard_drop_anim s;
   hard_drop_start_y := hard_drop_start_y s;
   hard_drop_target_y := hard_drop_target_y s |}.
Definition set_bag (v : list string) (s : t) : t :=
  {| grid := grid s; bag := v; next_queue := next_queue s; hold := hold s;
   can_hold := can_hold s; current := current s; score := score s;
   lines := lines s; level := level s; combo := combo s;
   back_to_back := back_to_back s; game_over := game_over s;
   paused := paused s; fall_interval := fall_interval s;
   hard_drop_anim := hard_drop_anim s;
   hard_drop_start_y := hard_drop_start_y s;
   hard_drop_target_y := hard_drop_target_y s |}.
Definition set_next_queue (v : list string) (s : t) : t :=
  {| grid := grid s; bag := bag s; next_queue := v; hold := hold s;
   can_hold := can_hold s; current := current s; score := score s;
   lines := lines s; level := level s; combo := combo s;
   back_to_back := back_to_back s; game_over := game_over s;
   paused := paused s; fall_interval := fall_interval s;
   hard_drop_anim := hard_drop_anim s;
   hard_drop_start_y := hard_drop_start_y s;
   hard_drop_target_y := hard_drop_target_y s |}.
Definition set_hold (v : option string) (s : t) : t :=
  {| grid := grid s; bag := bag s; next_queue := next_queue s; hold := v;
   can_hold := can_hold s; current := current s; score := score s;
   lines := lines s; level := level s; combo := combo s;
   back_to_back := back_to_back s; game_over := game_over s;
   paused := paused s; fall_interval := fall_interval s;
   hard_drop_anim := hard_drop_anim s;
   hard_drop_start_y := hard_drop_start_y s;
   hard_drop_target_y := hard_drop_target_y s |}.
Definition set_can_hold (v : bool) (s : t) : t :=
  {| grid := grid s; bag := bag s; next_queue := next_queue s;
   hold := hold s; can_hold := v; current := current s; score := score s;
   lines := lines s; level := level s; combo := combo s;
   back_to_back := back_to_back s; game_over := game_over s;
   paused := paused s; fall_interval := fall_interval s;
   hard_drop_anim := hard_drop_anim s;
   hard_drop_start_y := hard_drop_start_y s;
   hard_drop_target_y := hard_drop_target_y s |}.
Definition set_current (v : option Piece.t) (s : t) : t :=
  {| grid := grid s; bag := bag s; next_queue := next_queue s;
   hold := hold s; can_hold := can_hold s; current := v;
   score := score s; lines := lines s; level := level s;
   combo := combo s; back_to_back := back_to_back s;
   game_over := game_over s; paused := paused s;
   fall_interval := fall_interval s; hard_drop_anim := hard_drop_anim s;
   hard_drop_start_y := hard_drop_start_y s;
   hard_drop_target_y := hard_drop_target_y s |}.
Definition set_score (v : Z) (s : t) : t :=
  {| grid := grid s; bag := bag s; next_queue := next_queue s;
   hold := hold s; can_hold := can_hold s; current := current s;
   score := v; lines := lines s; level := level s; combo := combo s;
   back_to_back := back_to_back s; game_over := game_over s;
   paused := paused s; fall_interval := fall_interval s;
   hard_drop_anim := hard_drop_anim s;
   hard_drop_start_y := hard_drop_start_y s;
   hard_drop_target_y := hard_drop_target_y s |}.
Definition set_lines (v : Z) (s : t) : t :=
  {| grid := grid s; bag := bag s; next_queue := next_queue s;
   hold := hold s; can_hold := can_hold s; current := current s;
   score := score s; lines := v; level := level s; combo := combo s;
   back_to_back := back_to_back s; game_over := game_over s;
   paused := paused s; fall_interval := fall_interval s;
   hard_drop_anim := hard_drop_anim s;
   hard_drop_start_y := hard_drop_start_y s;
   hard_drop_target_y := hard_drop_target_y s |}.
Definition set_level (v : Z) (s : t) : t :=
  {| grid := grid s; bag := bag s; next_queue := next_queue s;
   hold := hold s; can_hold := can_hold s; current := current s;
   score := score s; lines := lines s; level := v; combo := combo s;
   back_to_back := back_to_back s; game_over := game_over s;
   paused := paused s; fall_interval := fall_interval s;
   hard_drop_anim := hard_drop_anim s;
   hard_drop_start_y := hard_drop_start_y s;
   hard_drop_target_y := hard_drop_target_y s |}.
Definition set_combo (v : Z) (s : t) : t :=
  {| grid := grid s; bag := bag s; next_queue := next_queue s;
   hold := hold s; can_hold := can_hold s; current := current s;
   score := score s; lines := lines s; level := level s; combo := v;
   back_to_back := back_to_back s; game_over := game_over s;
   paused := paused s; fall_interval := fall_interval s;
   hard_drop_anim := hard_drop_anim s;
   hard_drop_start_y := hard_drop_start_y s;
   hard_drop_target_y := hard_drop_target_y s |}.
Definition set_back_to_back (v : bool) (s : t) : t :=
  {| grid := grid s; bag := bag s; next_queue := next_queue s;
   hold := hold s; can_hold := can_hold s; current := current s;
   score := score s; lines := lines s; level := level s;
   combo := combo s; back_to_back := v; game_over := game_over s;
   paused := paused s; fall_interval := fall_interval s;
   hard_drop_anim := hard_drop_anim s;
   hard_drop_start_y := hard_drop_start_y s;
   hard_drop_target_y := hard_drop_target_y s |}.
Definition set_game_over (v : bool) (s : t) : t :=
  {| grid := grid s; bag := bag s; next_queue := next_queue s;
   hold := hold s; can_hold := can_hold s; current := current s;
   score := score s; lines := lines s; level := level s;
   combo := combo s; back_to_back := back_to_back s; game_over := v;
   paused := paused s; fall_interval := fall_interval s;
   hard_drop_anim := hard_drop_anim s;
   hard_drop_start_y := hard_drop_start_y s;
   hard_drop_target_y := hard_drop_target_y s |}.
Definition set_paused (v : bool) (s : t) : t :=
  {| grid := grid s; bag := bag s; next_queue := next_queue s;
   hold := hold s; can_hold := can_hold s; current := current s;
   score := score s; lines := lines s; level := level s;
   combo := combo s; back_to_back := back_to_back s;
   game_over := game_over s; paused := v;
   fall_interval := fall_interval s; hard_drop_anim := hard_drop_anim s;
   hard_drop_start_y := hard_drop_start_y s;
   hard_drop_target_y := hard_drop_target_y s |}.
Definition set_fall_interval (v : FallInterval) (s : t) : t :=
  {| grid := grid s; bag := bag s; next_queue := next_queue s;
   hold := hold s; can_hold := can_hold s; current := current s;
   score := score s; lines := lines s; level := level s;
   combo := combo s; back_to_back := back_to_back s;
   game_over := game_over s; paused := paused s; fall_interval := v;
   hard_drop_anim := hard_drop_anim s;
   hard_drop_start_y := hard_drop_start_y s;
   hard_drop_target_y := hard_drop_target_y s |}.
Definition set_hard_drop_anim (v : bool) (s : t) : t :=
  {| grid := grid s; bag := bag s; next_queue := next_queue s;
   hold := hold s; can_hold := can_hold s; current := current s;
   score := score s; lines := lines s; level := level s;
   combo := combo s; back_to_back := back_to_back s;
   game_over := game_over s; paused := paused s;
   fall_interval := fall_interval s; hard_drop_anim := v;
   hard_drop_start_y := hard_drop_start_y s;
   hard_drop_target_y := hard_drop_target_y s |}.
Definition set_hard_drop_start_y (v : Z) (s : t) : t :=
  {| grid := grid s; bag := bag s; next_queue := next_queue s;
   hold := hold s; can_hold := can_hold s; current := current s;
   score := score s; lines := lines s; level := level s;
   combo := combo s; back_to_back := back_to_back s;
   game_over := game_over s; paused := paused s;
   fall_interval := fall_interval s; hard_drop_anim := hard_drop_anim s;
   hard_drop_start_y := v; hard_drop_target_y := hard_drop_target_y s |}.
Definition set_hard_drop_target_y (v : Z) (s : t) : t :=
  {| grid := grid s; bag := bag s; next_queue := next_queue s;
   hold := hold s; can_hold := can_hold s; current := current s;
   score := score s; lines := lines s; level := level s;
   combo := combo s; back_to_back := back_to_back s;
   game_over := game_over s; paused := paused s;
   fall_interval := fall_interval s; hard_drop_anim := hard_drop_anim s;
   hard_drop_start_y := hard_drop_start_y s; hard_drop_target_y := v |}.

Definition empty_row : list (option string) :=
  replicate (Z.to_nat PLAY_COLS) None.

(** [GameState()]: the dataclass defaults. *)
Definition new : t :=
  {| grid := replicate (Z.to_nat PLAY_ROWS) empty_row; bag := [];
     next_queue := []; hold := None; can_hold := true; current := None;
     score := 0; lines := 0; level := 1; combo := -1; back_to_back := false;
     game_over := false; paused := false; fall_interval := interval_default;
     hard_drop_anim := false; hard_drop_start_y := 0;
     hard_drop_target_y := 0 |}.


(** [cur[k]] on the piece dict. *)
Definition key {A : Type} (v : option A) : result A :=
  match v with Some a => Ok a | None => Raise KeyError end.


End GameState.

(** ** Core game logic *)

Import GameState.

Definition spawn_x (kind : string) : Z :=
  if negb (String.eqb kind "I") then 3 else 3.

(** [cell is not None] *)
Definition is_not_None {A : Type} (cell : option A) : bool :=
  match cell with Some _ => true | None => false end.

(** The loop of [collides] over [piece.cells()]. *)
Fixpoint collides_cells (g : list (list (option string))) (cs : list (Z * Z))
  : result bool :=
  match cs with
  | [] => Ok false
  | (cx, cy) :: rest =>
      if (cx <? 0) || (cx >=? PLAY_COLS) || (cy >=? PLAY_ROWS) then Ok true
      else if cy >=? 0 then
        row ← py_getitem g cy;
        cell ← py_getitem row cx;
        if is_not_None cell then Ok true else collides_cells g rest
      else collides_cells g rest
  end.

Definition collides (state : GameState.t) (piece : Piece.t) : result bool :=
  cs ← Piece.cells piece;
  collides_cells (grid state) cs.

Definition clear_lines (state : GameState.t) : Z * GameState.t :=
  let new_grid :=
    List.filter (fun row => existsb (fun cell => negb (is_not_None cell)) row)
                (grid state) in
  let cleared := PLAY_ROWS - Z.of_nat (length new_grid) in
  let new_grid :=
    replicate (Z.to_nat (PLAY_ROWS - Z.of_nat (length new_grid))) empty_row
      ++ new_grid in
  (cleared, set_grid new_grid state).

(** The loop of [lock_piece] over the cells of the active piece. The flag
    returned tells whether the loop left through [return 0]. *)
Fixpoint lock_cells (kind : string) (cs : list (Z * Z)) (state : GameState.t)
  : result (bool * GameState.t) :=
  match cs with
  | [] => Ok (false, state)
  | (cx, cy) :: rest =>
      if cy <? 0 then Ok (true, set_game_over true state)
      else
        row ← py_getitem (grid state) cy;
        row' ← py_setitem row cx (Some kind);
        g' ← py_setitem (grid state) cy row';
        lock_cells kind rest (set_grid g' state)
  end.

(** The loop of [is_t_spin] over the four corners. *)
Fixpoint count_corners (g : list (list (option string))) (corners : list (Z * Z))
  (occupied : Z) : result Z :=
  match corners with
  | [] => Ok occupied
  | (cx, cy) :: rest =>
      if (cy <? 0) || (cx <? 0) || (cx >=? PLAY_COLS) || (cy >=? PLAY_ROWS)
      then count_corners g rest (occupied + 1)
      else
        row ← py_getitem g cy;
        cell ← py_getitem row cx;
        if is_not_None cell then count_corners g rest (occupied + 1)
        else count_corners g rest occupied
  end.

Definition corners_of (piece : Piece.t) : list (Z * Z) :=
  [ (Piece.x piece, Piece.y piece);
    (Piece.x piece + 2, Piece.y piece);
    (Piece.x piece, Piece.y piece + 2);
    (Piece.x piece + 2, Piece.y piece + 2) ].

Definition is_t_spin (state : GameState.t) (piece : Piece.t) (kicked : bool)
  : result string :=
  if negb (String.eqb (Piece.kind piece) "T") then Ok "none"
  else
    occupied ← count_corners (grid state) (corners_of piece) 0;
    if occupied >=? 3 then Ok "tspin" else Ok "none".

(** [int(pts * 1.5)]: the float product is exact for every [pts] below
    2^52 in absolute value, and [int] truncates towards zero. *)
Definition int_times_1_5 (pts : Z) : Z := Z.quot (pts * 3) 2.

Definition score_lines (state : GameState.t) (lines : Z) (tspin : string)
  : GameState.t :=
  let '(pts, b2b_candidate) :=
    if negb (String.eqb tspin "none") then
      ((if lines =? 1 then 400 else if lines =? 2 then 700 else 100), true)
    else
      ((if lines =? 1 then 100
        else if lines =? 2 then 300
        else if lines =? 3 then 500
        else if lines >=? 4 then 800
        else 0),
       lines >=? 4) in
  let '(pts, state) :=
    if lines >? 0 then
      let state := set_combo (combo state + 1) state in
      let pts := if combo state >? 0 then pts + 50 * combo state else pts in
      let '(pts, state) :=
        if b2b_candidate then
          ((if back_to_back state then int_times_1_5 pts else pts),
           set_back_to_back true state)
        else (pts, set_back_to_back false state) in
      let state := set_lines (GameState.lines state + lines) state in
      let state :=
        if GameState.lines state / 10 + 1 >? level state then
          let state := set_level (GameState.lines state / 10 + 1) state in
          set_fall_interval (gravity_for_level (level state)) state
        else state in
      (pts, state)
    else (pts, set_back_to_back false (set_combo (-1) state)) in
  set_score (score state + pts) state.

Definition try_move (state : GameState.t) (dx dy : Z)
  : result (bool * GameState.t) :=
  match current state with
  | None => Ok (false, state)
  | Some cur =>
      let p := Piece.mk (Piece.kind cur) (Piece.x cur + dx) (Piece.y cur + dy)
                        (Piece.r cur) in
      c ← collides state p;
      if negb c then Ok (true, set_current (Some p) state)
      else Ok (false, state)
  end.

(** The loop of [try_rotate] over the kick candidates. *)
Fixpoint try_kicks (state : GameState.t) (cur : Piece.t) (to_r : Z)
  (kicks : list Kick) : result ((bool * string) * GameState.t) :=
  match kicks with
  | [] => Ok ((false, "none"), state)
  | (dx, dy) :: rest =>
      let cand := Piece.mk (Piece.kind cur) (Piece.x cur + dx)
                           (Piece.y cur + dy) to_r in
      c ← collides state cand;
      if negb c then
        let state := set_current (Some cand) state in
        t ← is_t_spin state cand (negb (dx =? 0) || negb (dy =? 0));
        Ok ((true, t), state)
      else try_kicks state cur to_r rest
  end.

Definition try_rotate (state : GameState.t) (dr : Z)
  : result ((bool * string) * GameState.t) :=
  match current state with
  | None => Ok ((false, "none"), state)
  | Some cur =>
      rots ← subscript ROTATED (Piece.kind cur);
      from_r ← py_mod (Piece.r cur) (Z.of_nat (length rots));
      to_r ← py_mod (Piece.r cur + dr) (Z.of_nat (length rots));
      let which := if String.eqb (Piece.kind cur) "I" then "I" else "JLTSZ" in
      let kicks := kicks_for which from_r to_r in
      try_kicks state cur to_r kicks
  end.

(** The [while True] loop of [hard_drop_distance], run for at most [fuel]
    iterations. *)
Fixpoint hard_drop_loop (fuel : nat) (state : GameState.t) (p : Piece.t)
  (dist : Z) : result Z :=
  match fuel with
  | O => Fuel
  | S fuel' =>
      let q := Piece.mk (Piece.kind p) (Piece.x p) (Piece.y p + dist + 1)
                        (Piece.r p) in
      c ← collides state q;
      if (c : bool) then Ok dist else hard_drop_loop fuel' state p (dist + 1)
  end.

Definition hard_drop_distance (fuel : nat) (state : GameState.t) : result Z :=
  match current state with
  | None => Ok 0
  | Some p => hard_drop_loop fuel state p 0
  end.

(** ** Save / Load *)



(** ** Bag, spawn, lock, hold: the code that draws random numbers *)

(** Local variables of [run] that the game logic reads or writes:
    the state, the held-key flags, and the pair [ok, tspin] assigned by the
    rotation keys (unbound until the first rotation). *)
Record locals : Type := mk_locals {
  state : GameState.t;
  left : bool;
  right : bool;
  down : bool;
  last_lr : option string;
  ok_tspin : option (bool * string)
}.

Definition with_state (s : GameState.t) (h : locals) : locals :=
  {| state := s; left := left h; right := right h; down := down h;
     last_lr := last_lr h; ok_tspin := ok_tspin h |}.

(** The keys of the [KEYDOWN] handler that reach the game logic. Quit
    ([Esc], [Q]) and the pause menu ([P]) are outside the embedding. *)
Inductive key : Type :=
| K_r | K_LEFT | K_RIGHT | K_DOWN | K_UP | K_z | K_x | K_a | K_s
| K_SPACE | K_c | K_LSHIFT | K_RSHIFT | K_other.

Section Engine.

(** [shuffle_at n] is the list [random.shuffle] leaves in [bag] the n-th
    time [refill_bag] runs. *)
Variable shuffle_at : nat -> list string.

Definition refill_bag (state : GameState.t) : Rand GameState.t :=
  fun n => Ok (set_bag (bag state ++ shuffle_at n) state, S n).

(** The [while len(state.next_queue) < 5] loop of [spawn_next]. Every
    iteration appends one kind to the queue, so the loop runs
    [5 - len(next_queue)] times; [n] counts the iterations left. *)
Fixpoint fill_queue (n : nat) (state : GameState.t) : Rand GameState.t :=
  match n with
  | O => mret state
  | S n' =>
      state ← (match bag state with
               | [] => refill_bag state
               | _ => mret state
               end);
      match bag state with
      | [] => lift (Raise IndexError)
      | k :: rest =>
          fill_queue n' (set_next_queue (next_queue state ++ [k])
                                        (set_bag rest state))
      end
  end.

Definition spawn_next (state : GameState.t) : Rand GameState.t :=
  state ← fill_queue (5 - length (next_queue state)) state;
  match next_queue state with
  | [] => lift (Raise IndexError)
  | kind :: rest =>
      let state := set_next_queue rest state in
      let piece := Piece.mk kind (spawn_x kind) (-2) 0 in
      c ← lift (collides state piece);
      let state := if (c : bool) then set_game_over true state else state in
      mret (set_current (Some piece) state)
  end.

Definition lock_piece (state : GameState.t) : Rand (Z * GameState.t) :=
  match current state with
  | None => mret (0, state)
  | Some cur =>
      cs ← lift (Piece.cells cur);
      '(returned, state) ← lift (lock_cells (Piece.kind cur) cs state);
      if (returned : bool) then mret (0, state)
      else
        let '(cleared, state) := clear_lines state in
        let state := set_can_hold true state in
        let state := set_current None state in
        state ← spawn_next state;
        mret (cleared, state)
  end.

Definition hold_swap (state : GameState.t) : Rand GameState.t :=
  match current state with
  | None => mret state
  | Some cur =>
      if negb (can_hold state) then mret state
      else
        let cur_kind := Piece.kind cur in
        state ←
          (match hold state with
           | None => spawn_next (set_hold (Some cur_kind) state)
           | Some held =>
               let piece := Piece.mk held (spawn_x held) (-2) 0 in
               let state := set_current (Some piece) state in
               let state := set_hold (Some cur_kind) state in
               c ← lift (collides state piece);
               mret (if (c : bool) then set_game_over true state else state)
           end);
        mret (set_can_hold false state)
  end.

(** ** Game loop *)

Definition new_game (start_level : Z) : Rand GameState.t :=
  let state := GameState.new in
  let state := set_level start_level state in
  let state := set_fall_interval (gravity_for_level (level state)) state in
  state ← refill_bag state;
  spawn_next state.

Definition rotate_key (dr : Z) (h : locals) : result locals :=
  '(res, s) ← try_rotate (state h) dr;
  Ok {| state := s; left := left h; right := right h; down := down h;
        last_lr := last_lr h; ok_tspin := Some res |}.

(** The [K_SPACE] branch: start the hard-drop animation. *)
Definition space_key (fuel : nat) (s : GameState.t) : result GameState.t :=
  match current s with
  | Some cur =>
      if negb (hard_drop_anim s) then
        d ← hard_drop_distance fuel s;
        if d >? 0 then
          let s := set_hard_drop_anim true s in
          let s := set_hard_drop_start_y (Piece.y cur) s in
          let s := set_hard_drop_target_y (Piece.y cur + d) s in
          Ok (set_score (score s + 2 * d) s)
        else Ok s
      else Ok s
  | None => Ok s
  end.

(** One [KEYDOWN] event of the loop of [run]. *)
Definition keydown (start_level : Z) (fuel : nat) (k : key) (h : locals)
  : Rand locals :=
  h ← (match k with
       | K_r => s ← new_game start_level; mret (with_state s h)
       | _ => mret h
       end);
  if game_over (state h) || paused (state h) then mret h
  else
    match k with
    | K_LEFT =>
        '(_, s) ← lift (try_move (state h) (-1) 0);
        mret {| state := s; left := true; right := false; down := down h;
                last_lr := Some "L"; ok_tspin := ok_tspin h |}
    | K_RIGHT =>
        '(_, s) ← lift (try_move (state h) 1 0);
        mret {| state := s; left := false; right := true; down := down h;
                last_lr := Some "R"; ok_tspin := ok_tspin h |}
    | K_DOWN =>
        mret {| state := state h; left := left h; right := right h;
                down := true; last_lr := last_lr h; ok_tspin := ok_tspin h |}
    | K_UP | K_z => lift (rotate_key 1 h)
    | K_x => lift (rotate_key (-1) h)
    | K_a | K_s => lift (rotate_key 2 h)
    | K_SPACE => s ← lift (space_key fuel (state h)); mret (with_state s h)
    | K_c | K_LSHIFT | K_RSHIFT =>
        s ← hold_swap (state h); mret (with_state s h)
    | K_r | K_other => mret h
    end.

(** The hard-drop branch of the frame once the animation clock has run
    out ([t >= 1.0]): move the piece to the target row and lock it. *)
Definition finish_hard_drop (s : GameState.t) : Rand GameState.t :=
  match current s with
  | Some cur =>
      let cur := Piece.mk (Piece.kind cur) (Piece.x cur)
                          (hard_drop_target_y s) (Piece.r cur) in
      let s := set_current (Some cur) s in
      '(_, s) ← lock_piece s;
      mret (set_hard_drop_anim false s)
  | None => mret s
  end.

(** The auto-shift loop: [n] bounds the repeats the timers allow. *)
Fixpoint auto_shift (n : nat) (dx : Z) (s : GameState.t) : result GameState.t :=
  match n with
  | O => Ok s
  | S n' =>
      '(moved, s) ← try_move s dx 0;
      if (moved : bool) then auto_shift n' dx s else Ok s
  end.

(** One iteration of [while fall_accum >= gravity]. *)
Definition gravity_tick (down : bool) (s : GameState.t) : Rand GameState.t :=
  '(moved, s) ← lift (try_move s 0 1);
  if (moved : bool) then
    mret (if down then set_score (score s + 1) s else s)
  else
    '(cleared, s) ← lock_piece s;
    if cleared >? 0 then mret (score_lines s cleared "none") else mret s.

Fixpoint gravity_loop (ticks : nat) (down : bool) (s : GameState.t)
  : Rand GameState.t :=
  match ticks with
  | O => mret s
  | S ticks' => s ← gravity_tick down s; gravity_loop ticks' down s
  end.

(** The part of one frame after the events. The clocks are inputs:
    [anim_done] tells whether the hard-drop animation has run out,
    [shifts] and [ticks] how many auto-shift repeats and gravity steps the
    timers allow in this frame. *)
Definition frame (anim_done : bool) (shifts ticks : nat) (h : locals)
  : Rand locals :=
  let s := state h in
  if game_over s then mret h
  else if paused s then mret h
  else
    s ← (if hard_drop_anim s && is_not_None (current s) && anim_done
         then finish_hard_drop s else mret s);
    s ← lift (match last_lr h with
              | Some "L" => if left h then auto_shift shifts (-1) s else Ok s
              | Some "R" => if right h then auto_shift shifts 1 s else Ok s
              | _ => Ok s
              end);
    s ← (match current s with
         | None => spawn_next s
         | Some _ => mret s
         end);
    s ← gravity_loop ticks (down h) s;
    mret (with_state s h).

End Engine.

(** ** The catalog seen as data *)

(** The frame offsets [(i, j)] of the occupied characters of a grid, in the
    order [Piece.cells] visits them: row by row, left to right. *)
Definition offsets (g : Shape) : list (nat * nat) :=
  flat_map (fun j =>
    flat_map (fun i =>
      if Ascii.eqb (char_at g j i) "."%char then [] else [(i, j)])
    range4)
  range4.

(** Every grid of [ROTATED]. *)
Definition catalog : list Shape := concat (map snd ROTATED).

(** The first occupied cell of a grid lies in its topmost occupied row. *)
Definition top_first (g : Shape) : bool :=
  match offsets g with
  | [] => false
  | (_, j0) :: rest => forallb (fun c => (j0 <=? snd c)%nat) rest
  end.

(** Four strings of four characters. *)
Definition is_frame (g : Shape) : bool :=
  (length g =? 4)%nat && forallb (fun row => (String.length row =? 4)%nat) g.

(** The piece a kick candidate stands for: the current piece moved by the
    offset, at the target rotation. *)
Definition candidate (cur : Piece.t) (to_r : Z) (k : Kick) : Piece.t :=
  Piece.mk (Piece.kind cur) (Piece.x cur + fst k) (Piece.y cur + snd k) to_r.

Definition kicked (k : Kick) : bool :=
  negb (fst k =? 0) || negb (snd k =? 0).

(** The kick family of a kind. *)
Definition family (kind : string) : string :=
  if String.eqb kind "I" then "I" else "JLTSZ".

(** The piece translated down by [dy] rows. *)
Definition dropped (p : Piece.t) (dy : Z) : Piece.t :=
  Piece.mk (Piece.kind p) (Piece.x p) (Piece.y p + dy) (Piece.r p).

(** ** Boards and states used in the concrete scenarios *)

Definition columns : list Z := [0; 1; 2; 3; 4; 5; 6; 7; 8; 9].

(** A row with a locked cell in every column but [holes]. *)
Definition filled_except (holes : list Z) : list (option string) :=
  map (fun c => if existsb (Z.eqb c) holes then None else Some "Z") columns.

(** A row with a locked cell in the columns [cols] only. *)
Definition only (cols : list Z) : list (option string) :=
  map (fun c => if existsb (Z.eqb c) cols then Some "Z" else None) columns.

(** The board whose bottom rows are [rows], empty above. *)
Definition board (rows : list (list (option string)))
  : list (list (option string)) :=
  replicate (Z.to_nat PLAY_ROWS - length rows) empty_row ++ rows.

(** The shuffle that leaves the kinds in the order of [SHAPES]. *)
Definition in_order (n : nat) : list string := keys SHAPES.

(** A running game on the board [g] with active piece [p] and a full
    queue. *)
Definition playing (g : list (list (option string))) (p : Piece.t)
  (queue : list string) : GameState.t :=
  set_next_queue queue (set_current (Some p) (set_grid g GameState.new)).



(** ** Data-model invariants (specification, section 3) *)

Definition known_kind (k : string) : bool :=
  existsb (String.eqb k) (keys SHAPES).

Definition cell_ok (c : option string) : bool :=
  match c with None => true | Some k => known_kind k end.

(** The grid has [PLAY_ROWS] rows of [PLAY_COLS] cells. *)
Definition grid_dims (g : list (list (option string))) : bool :=
  (Z.of_nat (length g) =? PLAY_ROWS)
  && forallb (fun row => Z.of_nat (length row) =? PLAY_COLS) g.

Definition piece_ok (p : Piece.t) : bool :=
  match dict_get ROTATIONS (Piece.kind p) with
  | Some n => (0 <=? Piece.r p) && (Piece.r p <? Z.of_nat n)
  | None => false
  end.

Definition invariants (s : GameState.t) : bool :=
  grid_dims (grid s)
  && forallb (forallb cell_ok) (grid s)
  && forallb known_kind (bag s)
  && forallb known_kind (next_queue s)
  && match hold s with None => true | Some k => known_kind k end
  && match current s with None => true | Some p => piece_ok p end
  && (0 <=? score s) && (0 <=? GameState.lines s) && (1 <=? level s)
  && (-1 <=? combo s).




(** ** The specification's words, for comparison with the code *)



(** The centre of a tetromino: the cell with three of the others next to
    it. Only the T has one. *)
Definition adjacent (a b : Z * Z) : bool :=
  Z.abs (fst a - fst b) + Z.abs (snd a - snd b) =? 1.

Definition spec_center (cs : list (Z * Z)) : option (Z * Z) :=
  List.find (fun c => (length (List.filter (adjacent c) cs) =? 3)%nat) cs.

(** The diagonal neighbours of a cell. *)
Definition spec_diagonals (c : Z * Z) : list (Z * Z) :=
  [ (fst c - 1, snd c - 1); (fst c + 1, snd c - 1);
    (fst c - 1, snd c + 1); (fst c + 1, snd c + 1) ].

(** A corner is occupied when it is out of bounds or holds a locked cell. *)
Definition spec_occupied (g : list (list (option string))) (c : Z * Z) : bool :=
  if (fst c <? 0) || (fst c >=? PLAY_COLS) || (snd c <? 0) || (snd c >=? PLAY_ROWS)
  then true
  else
    match g !! Z.to_nat (snd c) with
    | Some row =>
        match row !! Z.to_nat (fst c) with
        | Some (Some _) => true
        | _ => false
        end
    | None => false
    end.

(** Number of occupied diagonal neighbours of the centre of [piece]. *)
Definition spec_corner_count (s : GameState.t) (piece : Piece.t) : option nat :=
  match Piece.cells piece with
  | Ok cs =>
      c ← spec_center cs;
      Some (length (List.filter (spec_occupied (grid s)) (spec_diagonals c)))
  | _ => None
  end.


(** ** Notions used by the further properties *)

(** The board cell at column [cx], row [cy] holds a locked block. *)
Definition locked_at (g : list (list (option string))) (c : Z * Z) : bool :=
  match g !! Z.to_nat (snd c) with
  | Some row =>
      match row !! Z.to_nat (fst c) with
      | Some (Some _) => true
      | _ => false
      end
  | None => false
  end.

(** A cell that makes a piece collide: outside the side walls, at or below
    the floor, or on a locked block of a visible row. *)
Definition blocked (g : list (list (option string))) (c : Z * Z) : bool :=
  (fst c <? 0) || (PLAY_COLS <=? fst c) || (PLAY_ROWS <=? snd c)
  || ((0 <=? snd c) && locked_at g c).

(** A grid of a tetromino: four occupied cells, no cell listed twice. *)
Definition four_cells (g : Shape) : bool :=
  (length (offsets g) =? 4)%nat
  && bool_decide (NoDup (offsets g))
  && forallb (fun c => (fst c <? 4)%nat && (snd c <? 4)%nat) (offsets g).

(** [rotate_shape] applied [n] times. *)
Fixpoint rotate_n (n : nat) (g : Shape) : Shape :=
  match n with
  | O => g
  | S n' => rotate_shape (rotate_n n' g)
  end.

(** A row [clear_lines] removes: no cell of it is [None]. *)
Definition full_row (row : list (option string)) : bool :=
  negb (existsb (fun cell => negb (is_not_None cell)) row).

(** Number of locked blocks on a board. *)
Definition locked_count (g : list (list (option string))) : Z :=
  fold_right (fun row acc => Z.of_nat (length (List.filter is_not_None row)) + acc)
             0 g.

(** Every offset of every kick table moves the piece by at most two
    columns and two rows. *)
Definition kicks_small (ks : list Kick) : bool :=
  forallb (fun k => (Z.abs (fst k) <=? 2) && (Z.abs (snd k) <=? 2)) ks.

Definition tables_small : bool :=
  forallb (fun family => forallb (fun entry => kicks_small (snd entry))
                                 (snd family))
          KICKS.

(** The content of the board at a cell, [None] outside the lists. *)
Definition cell_at (g : list (list (option string))) (c : Z * Z)
  : option (option string) :=
  row ← g !! Z.to_nat (snd c); row !! Z.to_nat (fst c).

(** A cell of the visible board. *)
Definition in_board (c : Z * Z) : Prop :=
  0 <= fst c < PLAY_COLS /\ 0 <= snd c < PLAY_ROWS.

Definition blocks_in_row (row : list (option string)) : Z :=
  Z.of_nat (length (List.filter is_not_None row)).



(** The lists the shuffles number [n], ..., [n + k - 1] leave in the bag,
    one after the other. *)
Definition shuffles (shuffle : nat -> list string) (n k : nat) : list string :=
  concat (map shuffle (seq n k)).

(** The score after [rows] rows of fall: a soft drop earns one point per
    row, plain gravity nothing. *)
Definition fallen (down : bool) (rows : Z) (p : Piece.t) (s : GameState.t)
  : GameState.t :=
  set_score (score s + (if down then rows else 0))
            (set_current (Some (dropped p rows)) s).


(** ** Audio *)

(** The fields of [AudioManager] that [next] and [prev] use. The mixer and
    the sound effects are outside the embedding. *)
Module AudioManager.

Record t : Type := mk {
  playlist : list string;
  index : Z;
  enabled : bool
}.

(** [__init__], given the playlist found on disk. *)
Definition init (files : list string) : t :=
  {| playlist := files; index := 0; enabled := (0 <? length files)%nat |}.

(** [play_current]: the path handed to the mixer, if any. Failures of the
    mixer are caught and printed; the subscript is outside the [try]. *)
Definition play_current (a : t) : result (option string) :=
  if negb (enabled a) then Ok None
  else path ← py_getitem (playlist a) (index a); Ok (Some path).

Definition step (delta : Z) (a : t) : result (t * option string) :=
  if negb (enabled a) then Ok (a, None)
  else
    i ← py_mod (index a + delta) (Z.of_nat (length (playlist a)));
    let a := {| playlist := playlist a; index := i; enabled := enabled a |} in
    played ← play_current a;
    Ok (a, played).

(** [next] and [prev], with the path they play. *)
Definition next (a : t) : result (t * option string) := step 1 a.
Definition prev (a : t) : result (t * option string) := step (-1) a.

(** The state [__init__] establishes: enabled exactly when there is a
    track, and the index on a track. *)
Definition ok (a : t) : Prop :=
  enabled a = (0 <? length (playlist a))%nat
  /\ (enabled a = true -> 0 <= index a < Z.of_nat (length (playlist a))).

End AudioManager.

(** A shuffle source that only produces non-empty lists of known kinds,
    as [random.shuffle] does on [list(SHAPES.keys())]. *)
Definition shuffles_known (shuffle : nat -> list string) : Prop :=
  forall m, shuffle m <> [] /\ forallb known_kind (shuffle m) = true.

Definition hold_ok (h : option string) : bool :=
  match h with None => true | Some k => known_kind k end.

Definition current_ok (c : option Piece.t) : bool :=
  match c with None => true | Some p => piece_ok p end.
(** * Properties *)

(** ** Scoring *)

Ltac split_andb :=
  repeat match goal with
  | H : _ && _ = true |- _ => apply andb_true_iff in H; destruct H
  | H : _ && _ = false |- _ => apply andb_false_iff in H; destruct H
  end.

Ltac case_if :=
  match goal with
  | |- context [if ?b then _ else _] => destruct b eqn:?
  end.


Lemma int_times_1_5_floor (pts : Z) :
  0 <= pts -> int_times_1_5 pts = 3 * pts / 2.
Proof.
  intros Hpts. unfold int_times_1_5.
  rewrite Z.quot_div_nonneg by lia. f_equal. lia.
Qed.



(** ** The shape catalog *)

Lemma dict_get_In {V : Type} (d : list (string * V)) (k : string) (v : V) :
  dict_get d k = Some v -> In (k, v) d.
Proof.
  induction d as [|[k' v'] d IH]; cbn; [discriminate|].
  destruct (String.eqb_spec k' k) as [->|Hne].
  - intros [= ->]. now left.
  - intros H. right. now apply IH.
Qed.

Lemma ROTATED_built :
  ROTATED = omap (fun k => rots ← build_rotations k; Some (k, rots)) (keys SHAPES).
Proof. vm_compute. reflexivity. Qed.

(** The rotation count of a kind is the length of its list in [ROTATED]. *)
Lemma ROTATED_count (k : string) (rots : list Shape) :
  dict_get ROTATED k = Some rots ->
  dict_get ROTATIONS k = Some (length rots) /\ (0 < length rots)%nat.
Proof.
  intros H. apply dict_get_In in H. cbn in H.
  repeat (destruct H as [[= <- <-]|H]; [split; [reflexivity|cbn; lia]|]).
  destruct H.
Qed.

Lemma ROTATED_in_catalog (k : string) (rots : list Shape) (g : Shape) :
  dict_get ROTATED k = Some rots -> In g rots -> In g catalog.
Proof.
  intros H Hg. apply dict_get_In in H. unfold catalog.
  apply in_concat. exists rots. split; [|exact Hg].
  apply in_map_iff. exists (k, rots). split; [reflexivity|exact H].
Qed.

Lemma catalog_all (P : Shape -> bool) :
  forallb P catalog = true -> forall g, In g catalog -> P g = true.
Proof. intros H g Hg. rewrite forallb_forall in H. now apply H. Qed.

Lemma ROTATED_frames (g : Shape) : In g catalog -> is_frame g = true.
Proof. apply catalog_all. vm_compute. reflexivity. Qed.

Lemma catalog_top_first (g : Shape) : In g catalog -> top_first g = true.
Proof. apply catalog_all. vm_compute. reflexivity. Qed.

(** [Piece.grid] succeeds exactly on the kinds of [ROTATED], whatever the
    rotation index, and returns a grid of the catalog. *)
Lemma grid_known (p : Piece.t) (rots : list Shape) :
  dict_get ROTATED (Piece.kind p) = Some rots ->
  exists g, Piece.grid p = Ok g /\ In g rots.
Proof.
  intros H. destruct (ROTATED_count _ _ H) as [_ Hlen].
  unfold Piece.grid, subscript. rewrite H. cbn.
  unfold py_mod. destruct (Z.eqb_spec (Z.of_nat (length rots)) 0) as [E|_]; [lia|].
  cbn. unfold py_getitem, py_index.
  pose proof (Z.mod_pos_bound (Piece.r p) (Z.of_nat (length rots)) ltac:(lia)) as Hb.
  replace ((0 <=? _) && (_ <? _)) with true by lia.
  destruct (rots !! Z.to_nat (Piece.r p mod Z.of_nat (length rots))) as [g|] eqn:E.
  - exists g. split; [reflexivity|].
    apply list_elem_of_In. eapply list_elem_of_lookup_2. exact E.
  - apply lookup_ge_None in E. lia.
Qed.

Lemma grid_in_catalog (p : Piece.t) (g : Shape) :
  Piece.grid p = Ok g -> In g catalog.
Proof.
  intros H. destruct (dict_get ROTATED (Piece.kind p)) as [rots|] eqn:E.
  - destruct (grid_known p rots E) as (g' & Hg' & Hin).
    rewrite H in Hg'. injection Hg' as <-. eapply ROTATED_in_catalog; eauto.
  - unfold Piece.grid, subscript in H. rewrite E in H. discriminate.
Qed.

Lemma map_flat_map {A B C : Type} (f : B -> C) (h : A -> list B) (l : list A) :
  map f (flat_map h l) = flat_map (fun a => map f (h a)) l.
Proof.
  induction l as [|a l IH]; [reflexivity|].
  cbn [flat_map]. rewrite map_app, IH. reflexivity.
Qed.

Definition place (p : Piece.t) (c : nat * nat) : Z * Z :=
  (Piece.x p + Z.of_nat (fst c), Piece.y p + Z.of_nat (snd c)).

(** The cells of a piece are the offsets of its grid moved to its
    position. *)
Lemma cells_offsets (p : Piece.t) (g : Shape) :
  Piece.grid p = Ok g -> Piece.cells p = Ok (map (place p) (offsets g)).
Proof.
  intros H. unfold Piece.cells. rewrite H. unfold mbind, result_bind.
  f_equal. unfold offsets. rewrite map_flat_map. apply flat_map_ext. intros j.
  rewrite map_flat_map. apply flat_map_ext. intros i.
  destruct (Ascii.eqb _ _); reflexivity.
Qed.

Lemma cells_inv (p : Piece.t) (cs : list (Z * Z)) :
  Piece.cells p = Ok cs ->
  exists g, In g catalog /\ Piece.grid p = Ok g /\ cs = map (place p) (offsets g).
Proof.
  intros H. destruct (Piece.grid p) as [g| |] eqn:E.
  - exists g. rewrite (cells_offsets p g E) in H. injection H as <-.
    split; [exact (grid_in_catalog p g E)|]. split; reflexivity.
  - unfold Piece.cells in H. rewrite E in H. discriminate.
  - unfold Piece.cells in H. rewrite E in H. discriminate.
Qed.

(** ** Save and load *)


Lemma collides_grid (s1 s2 : GameState.t) (p : Piece.t) :
  grid s1 = grid s2 -> collides s1 p = collides s2 p.
Proof. unfold collides. intros ->. reflexivity. Qed.





(** ** Locking *)




(** ** Rotation *)

Lemma try_kicks_blocked (s : GameState.t) (cur : Piece.t) (to_r : Z)
  (kicks : list Kick) :
  Forall (fun k => collides s (candidate cur to_r k) = Ok true) kicks ->
  try_kicks s cur to_r kicks = Ok ((false, "none"), s).
Proof.
  induction 1 as [|[dx dy] kicks Hk _ IH]; [reflexivity|].
  cbn [try_kicks]. unfold candidate in Hk. cbn [fst snd] in Hk.
  rewrite Hk. cbn. exact IH.
Qed.

Lemma try_kicks_first_fit (s : GameState.t) (cur : Piece.t) (to_r : Z)
  (pre : list Kick) (k : Kick) (post : list Kick) :
  Forall (fun k' => collides s (candidate cur to_r k') = Ok true) pre ->
  collides s (candidate cur to_r k) = Ok false ->
  try_kicks s cur to_r (pre ++ k :: post) =
    let cand := candidate cur to_r k in
    let s' := set_current (Some cand) s in
    t ← is_t_spin s' cand (kicked k); Ok ((true, t), s').
Proof.
  intros Hpre Hk. induction Hpre as [|[dx dy] pre Hc _ IH].
  - destruct k as [dx dy]. cbn [app try_kicks].
    unfold candidate in Hk. cbn [fst snd] in Hk. rewrite Hk. reflexivity.
  - cbn [app try_kicks]. unfold candidate in Hc. cbn [fst snd] in Hc.
    rewrite Hc. cbn. exact IH.
Qed.

(** C5. [try_rotate] takes the target rotation index modulo the rotation
    count of the kind, looks up the candidates of the pair (from, to) in the
    table of the kind's family (the zero offset alone when the pair is not
    listed) and installs the first candidate that does not collide: when
    the candidates before it all collide, that one and no later one is
    chosen. When every candidate collides the rotation fails and the state
    is unchanged. *)
Theorem try_rotate_first_fit (s : GameState.t) (cur : Piece.t) (dr : Z)
  (rots : list Shape) :
  current s = Some cur ->
  dict_get ROTATED (Piece.kind cur) = Some rots ->
  let count := Z.of_nat (length rots) in
  let from_r := Piece.r cur mod count in
  let to_r := (Piece.r cur + dr) mod count in
  let kicks := kicks_for (family (Piece.kind cur)) from_r to_r in
  dict_get ROTATIONS (Piece.kind cur) = Some (length rots)
  /\ (pair_get (default [] (dict_get KICKS (family (Piece.kind cur))))
               (from_r, to_r) = None -> kicks = [(0, 0)])
  /\ (forall table,
        pair_get (default [] (dict_get KICKS (family (Piece.kind cur))))
                 (from_r, to_r) = Some table -> kicks = table)
  /\ (forall pre k post,
        kicks = pre ++ k :: post ->
        Forall (fun k' => collides s (candidate cur to_r k') = Ok true) pre ->
        collides s (candidate cur to_r k) = Ok false ->
        try_rotate s dr =
          let cand := candidate cur to_r k in
          let s' := set_current (Some cand) s in
          t ← is_t_spin s' cand (kicked k); Ok ((true, t), s'))
  /\ (Forall (fun k => collides s (candidate cur to_r k) = Ok true) kicks ->
      try_rotate s dr = Ok ((false, "none"), s)).
Proof.
  intros Hcur Hrots count from_r to_r kicks.
  destruct (ROTATED_count _ _ Hrots) as [Hcount Hpos].
  assert (Hrun : try_rotate s dr = try_kicks s cur to_r kicks).
  { unfold try_rotate. rewrite Hcur. unfold subscript. rewrite Hrots.
    cbn [mbind result_bind]. unfold py_mod.
    destruct (Z.eqb_spec (Z.of_nat (length rots)) 0) as [E|_]; [lia|].
    reflexivity. }
  split; [exact Hcount|].
  split; [intros H; subst kicks; unfold kicks_for; rewrite H; reflexivity|].
  split; [intros t H; subst kicks; unfold kicks_for; rewrite H; reflexivity|].
  split.
  - intros pre k post Hsplit Hpre Hk. rewrite Hrun, Hsplit.
    now apply try_kicks_first_fit.
  - intros Hall. rewrite Hrun. now apply try_kicks_blocked.
Qed.

(** A T piece upright against the left wall of an empty board: the
    unkicked candidate leaves the board, the second candidate fits. *)
Lemma try_rotate_first_fit_witness :
  let s := playing (board []) (Piece.mk "T" (-1) 5 1) ["I"; "O"; "T"; "S"; "Z"] in
  try_rotate s 1 =
    Ok ((true, "none"), set_current (Some (Piece.mk "T" 0 5 2)) s).
Proof.
  intros s.
  pose proof (try_rotate_first_fit s (Piece.mk "T" (-1) 5 1) 1
    [["...."; ".TTT"; "..T."; "...."]; ["...."; "..T."; ".TT."; "..T."];
     ["...."; ".T.."; "TTT."; "...."]; [".T.."; ".TT."; ".T.."; "...."]]
    eq_refl eq_refl) as (_ & _ & _ & Hfit & _).
  specialize (Hfit [(0, 0)] (1, 0) [(1, -1); (0, 2); (1, 2)] eq_refl).
  rewrite Hfit.
  - vm_compute. reflexivity.
  - constructor; [vm_compute; reflexivity|constructor].
  - vm_compute. reflexivity.
Defined.

(** ** Collision and hard drop *)

Lemma grid_dims_row (g : list (list (option string))) (cy : Z) :
  grid_dims g = true -> 0 <= cy < PLAY_ROWS ->
  exists row, py_getitem g cy = Ok row /\ Z.of_nat (length row) = PLAY_COLS.
Proof.
  unfold grid_dims. intros H Hcy. apply andb_true_iff in H as [Hlen Hrows].
  apply Z.eqb_eq in Hlen. rewrite forallb_forall in Hrows.
  unfold py_getitem, py_index.
  replace ((0 <=? cy) && (cy <? Z.of_nat (length g))) with true by lia.
  destruct (g !! Z.to_nat cy) as [row|] eqn:E.
  - exists row. split; [reflexivity|].
    apply Z.eqb_eq, Hrows, list_elem_of_In. eapply list_elem_of_lookup_2, E.
  - apply lookup_ge_None in E. lia.
Qed.

Lemma row_cell (row : list (option string)) (cx : Z) :
  Z.of_nat (length row) = PLAY_COLS -> 0 <= cx < PLAY_COLS ->
  exists cell, py_getitem row cx = Ok cell.
Proof.
  intros Hlen Hcx. unfold py_getitem, py_index.
  replace ((0 <=? cx) && (cx <? Z.of_nat (length row))) with true by lia.
  destruct (row !! Z.to_nat cx) as [cell|] eqn:E; [eauto|].
  apply lookup_ge_None in E. lia.
Qed.

(** On a grid of the right size the collision loop never raises. *)
Lemma collides_cells_total (g : list (list (option string))) (cs : list (Z * Z)) :
  grid_dims g = true -> exists b, collides_cells g cs = Ok b.
Proof.
  intros Hg. induction cs as [|[cx cy] cs [b IH]]; [now exists false|].
  cbn [collides_cells]. rewrite !Z.geb_leb.
  destruct ((cx <? 0) || (PLAY_COLS <=? cx) || (PLAY_ROWS <=? cy)) eqn:Eb;
    [now exists true|].
  destruct (0 <=? cy) eqn:Ey; [|now exists b].
  destruct (grid_dims_row g cy Hg ltac:(lia)) as (row & -> & Hlen).
  destruct (row_cell row cx Hlen ltac:(lia)) as (cell & Hcell).
  cbn. rewrite Hcell. cbn. destruct (is_not_None cell); eauto.
Qed.

Lemma collides_total (s : GameState.t) (p : Piece.t) (rots : list Shape) :
  grid_dims (grid s) = true ->
  dict_get ROTATED (Piece.kind p) = Some rots ->
  exists b, collides s p = Ok b.
Proof.
  intros Hg Hk. destruct (grid_known p rots Hk) as (g & Hgrid & _).
  unfold collides. rewrite (cells_offsets p g Hgrid). cbn [mbind result_bind].
  now apply collides_cells_total.
Qed.

(** A piece of a known kind whose frame starts at or below the bottom
    bound collides, whatever the board. *)
Lemma collides_below (s : GameState.t) (p : Piece.t) (rots : list Shape) :
  dict_get ROTATED (Piece.kind p) = Some rots ->
  PLAY_ROWS <= Piece.y p ->
  collides s p = Ok true.
Proof.
  intros Hk Hy. destruct (grid_known p rots Hk) as (g & Hgrid & Hin).
  unfold collides. rewrite (cells_offsets p g Hgrid). cbn [mbind result_bind].
  pose proof (catalog_top_first g (ROTATED_in_catalog _ _ _ Hk Hin)) as Htop.
  unfold top_first in Htop. destruct (offsets g) as [|[i j] rest]; [discriminate|].
  cbn [map place fst snd collides_cells].
  rewrite !Z.geb_leb.
  assert (E : (PLAY_ROWS <=? Piece.y p + Z.of_nat j) = true)
    by (apply Z.leb_le; lia).
  rewrite E, !orb_true_r. reflexivity.
Qed.

(** Only a loop on fuel can run out of it: [collides] never does. *)
Lemma py_getitem_not_fuel {A : Type} (l : list A) (i : Z) :
  py_getitem l i <> Fuel.
Proof.
  unfold py_getitem. destruct (py_index _ _) as [n|]; [|discriminate].
  destruct (l !! n); discriminate.
Qed.

Lemma collides_cells_not_fuel (g : list (list (option string)))
  (cs : list (Z * Z)) :
  collides_cells g cs <> Fuel.
Proof.
  induction cs as [|[cx cy] cs IH]; cbn [collides_cells]; [discriminate|].
  destruct (_ || _); [discriminate|]. destruct (cy >=? 0); [|exact IH].
  pose proof (py_getitem_not_fuel g cy) as Hrow.
  destruct (py_getitem g cy) as [row| |]; cbn; try discriminate; [|congruence].
  pose proof (py_getitem_not_fuel row cx) as Hcell.
  destruct (py_getitem row cx) as [cell| |]; cbn; try discriminate; [|congruence].
  destruct (is_not_None cell); [discriminate|exact IH].
Qed.

Lemma collides_not_fuel (s : GameState.t) (p : Piece.t) : collides s p <> Fuel.
Proof.
  unfold collides, Piece.cells, Piece.grid, subscript, py_mod.
  destruct (dict_get ROTATED (Piece.kind p)) as [rots|]; cbn; [|discriminate].
  destruct (_ =? 0); cbn; [discriminate|].
  pose proof (py_getitem_not_fuel rots (Piece.r p mod Z.of_nat (length rots))) as H.
  destruct (py_getitem rots _) as [g| |]; cbn [mbind result_bind];
    try discriminate; [|congruence].
  apply collides_cells_not_fuel.
Qed.

Lemma hard_drop_loop_stop (s : GameState.t) (p : Piece.t) (k : nat) :
  forall (dist : Z) (fuel : nat),
    (forall dy, dist < dy <= dist + Z.of_nat k ->
                collides s (dropped p dy) = Ok false) ->
    collides s (dropped p (dist + Z.of_nat k + 1)) = Ok true ->
    (k < fuel)%nat ->
    hard_drop_loop fuel s p dist = Ok (dist + Z.of_nat k).
Proof.
  induction k as [|k IH]; intros dist fuel Hfree Hstop Hfuel;
    (destruct fuel as [|fuel]; [lia|]); cbn [hard_drop_loop].
  - replace (dist + Z.of_nat 0 + 1) with (dist + 1) in Hstop by lia.
    unfold dropped in Hstop. rewrite Z.add_assoc in Hstop. rewrite Hstop.
    cbn. f_equal. lia.
  - pose proof (Hfree (dist + 1) ltac:(lia)) as H1.
    unfold dropped in H1. rewrite Z.add_assoc in H1. rewrite H1. cbn.
    rewrite (IH (dist + 1) fuel).
    + f_equal. lia.
    + intros dy Hdy. apply Hfree. lia.
    + rewrite <- Hstop. do 2 f_equal. lia.
    + lia.
Qed.

(** Searching upwards from [base]: the first translation that collides. *)
Lemma first_stop (s : GameState.t) (p : Piece.t) (n : nat) :
  forall base : Z,
    (forall dy, exists b, collides s (dropped p dy) = Ok b) ->
    collides s (dropped p (base + Z.of_nat n + 1)) = Ok true ->
    exists k : nat,
      (k <= n)%nat
      /\ (forall dy, base < dy <= base + Z.of_nat k ->
                     collides s (dropped p dy) = Ok false)
      /\ collides s (dropped p (base + Z.of_nat k + 1)) = Ok true.
Proof.
  induction n as [|n IH]; intros base Htot Hstop.
  - exists 0%nat. split; [lia|]. split; [intros dy Hdy; lia|exact Hstop].
  - destruct (Htot (base + 1)) as [[|] Hb].
    + exists 0%nat. split; [lia|]. split; [intros dy Hdy; lia|].
      rewrite <- Hb. do 2 f_equal. lia.
    + destruct (IH (base + 1) Htot) as (k & Hk & Hfree & Hk1).
      { rewrite <- Hstop. do 2 f_equal. lia. }
      exists (S k). split; [lia|]. split.
      * intros dy Hdy. destruct (Z.eq_dec dy (base + 1)) as [->|Hne];
          [exact Hb|apply Hfree; lia].
      * rewrite <- Hk1. do 2 f_equal. lia.
Qed.

(** C10, counterexample. An O piece above a board with one locked cell in
    row 10: the loop stops after 7 rows, the first translation that
    collides is the 8th, yet the translation by 10 rows does not collide,
    so 7 is not the largest collision-free translation. And a piece far
    above the board travels more than the row count plus the frame
    height. *)
Lemma hard_drop_distance_not_maximum :
  let p := Piece.mk "O" 3 0 0 in
  let s := playing (board (only [4] :: replicate 9 (only []))) p
                   ["I"; "O"; "T"; "S"; "Z"] in
  let s_high := playing (board []) (Piece.mk "O" 3 (-30) 0)
                        ["I"; "O"; "T"; "S"; "Z"] in
  hard_drop_distance 64 s = Ok 7
  /\ collides s (dropped p 8) = Ok true
  /\ collides s (dropped p 10) = Ok false
  /\ hard_drop_distance 64 s_high = Ok 47.
Proof. vm_compute. repeat split; reflexivity. Qed.

(** C10, amended. On a board of the right size, for an active piece of a
    known kind, [hard_drop_distance] terminates: with enough fuel for the
    loop it returns a distance [d >= 0], the same for every larger fuel.
    [d] is the number of one-row steps before the first collision: every
    translation by 1 to [d] rows is collision-free and the translation by
    [d + 1] rows collides. [d] is at most the row count minus one minus
    the row of the piece (or 0), hence at most the row count plus the
    frame height for a piece whose row is -4 or more. *)
Theorem hard_drop_distance_first_stop (s : GameState.t) (p : Piece.t)
  (rots : list Shape) :
  current s = Some p ->
  dict_get ROTATED (Piece.kind p) = Some rots ->
  grid_dims (grid s) = true ->
  exists d : Z,
    0 <= d
    /\ (forall fuel, (Z.to_nat d < fuel)%nat -> hard_drop_distance fuel s = Ok d)
    /\ (forall dy, 1 <= dy <= d -> collides s (dropped p dy) = Ok false)
    /\ collides s (dropped p (d + 1)) = Ok true
    /\ d <= Z.max 0 (PLAY_ROWS - 1 - Piece.y p)
    /\ (-4 <= Piece.y p -> d <= PLAY_ROWS + 4).
Proof.
  intros Hcur Hk Hg.
  set (n := Z.to_nat (Z.max 0 (PLAY_ROWS - 1 - Piece.y p))).
  destruct (first_stop s p n 0) as (k & Hkn & Hfree & Hstop).
  - intros dy. apply (collides_total s (dropped p dy) rots Hg Hk).
  - apply (collides_below s (dropped p (0 + Z.of_nat n + 1)) rots Hk).
    subst n. cbn [dropped Piece.y]. lia.
  - exists (Z.of_nat k). split; [lia|]. split; [|split; [|split; [|split]]].
    + intros fuel Hfuel. unfold hard_drop_distance. rewrite Hcur.
      rewrite (hard_drop_loop_stop s p k 0 fuel); [reflexivity| | |lia].
      * intros dy Hdy. apply Hfree. lia.
      * exact Hstop.
    + intros dy Hdy. apply Hfree. lia.
    + exact Hstop.
    + subst n. lia.
    + intros Hy. subst n. unfold PLAY_ROWS in *. lia.
Qed.

Lemma hard_drop_distance_first_stop_witness :
  let p := Piece.mk "O" 3 0 0 in
  let s := playing (board (only [4] :: replicate 9 (only []))) p
                   ["I"; "O"; "T"; "S"; "Z"] in
  exists d : Z,
    0 <= d
    /\ (forall fuel, (Z.to_nat d < fuel)%nat -> hard_drop_distance fuel s = Ok d)
    /\ (forall dy, 1 <= dy <= d -> collides s (dropped p dy) = Ok false)
    /\ collides s (dropped p (d + 1)) = Ok true
    /\ d <= Z.max 0 (PLAY_ROWS - 1 - Piece.y p)
    /\ (-4 <= Piece.y p -> d <= PLAY_ROWS + 4).
Proof.
  intros p s.
  apply (hard_drop_distance_first_stop s p
           [["...."; ".OO."; ".OO."; "...."]]).
  - reflexivity.
  - reflexivity.
  - vm_compute. reflexivity.
Defined.

(** [hard_drop_distance] terminates on every state, also on a board of the
    wrong size or with a piece of an unknown kind, where it raises. *)
Lemma hard_drop_distance_halts (s : GameState.t) :
  exists fuel0 : nat,
    forall fuel, (fuel0 <= fuel)%nat -> hard_drop_distance fuel s <> Fuel.
Proof.
  unfold hard_drop_distance. destruct (current s) as [p|]; [|now exists 0%nat].
  destruct (dict_get ROTATED (Piece.kind p)) as [rots|] eqn:Hk.
  - set (n := Z.to_nat (Z.max 0 (PLAY_ROWS - Piece.y p))).
    exists (S n). intros fuel Hfuel.
    assert (Hgen : forall (m : nat) (dist : Z) (f : nat),
               PLAY_ROWS <= Piece.y p + dist + Z.of_nat m + 1 ->
               (m < f)%nat -> hard_drop_loop f s p dist <> Fuel).
    { induction m as [|m IH]; intros dist f Hb Hf;
        (destruct f as [|f]; [lia|]); cbn [hard_drop_loop].
      - match goal with
        | |- context [collides s ?q] =>
            rewrite (collides_below s q rots Hk); [discriminate|]
        end.
        cbn [Piece.y]. lia.
      - match goal with
        | |- context [collides s ?q] =>
            pose proof (collides_not_fuel s q) as Hq;
            destruct (collides s q) as [[|]| |]
        end; cbn; try discriminate; [|congruence].
        apply IH; lia. }
    apply (Hgen n 0); subst n; lia.
  - exists 1%nat. intros fuel Hfuel. destruct fuel as [|fuel]; [lia|].
    cbn [hard_drop_loop]. unfold collides, Piece.cells, Piece.grid, subscript.
    cbn [Piece.kind]. rewrite Hk. discriminate.
Qed.

(** ** Spawning *)

(** Filling the queue touches the bag and the queue only. *)
Lemma fill_queue_inv (shuffle : nat -> list string) (k : nat) :
  forall (s s1 : GameState.t) (n n1 : nat),
    fill_queue shuffle k s n = Ok (s1, n1) ->
    exists b q, s1 = set_next_queue q (set_bag b s).
Proof.
  induction k as [|k IH]; intros s s1 n n1 H.
  - injection H as <- <-. exists (bag s), (next_queue s). now destruct s.
  - cbn [fill_queue] in H. unfold mbind, Rand_bind in H.
    destruct (bag s) as [|k0 b0] eqn:Eb.
    + unfold refill_bag in H. cbn [bag set_bag] in H.
      destruct (bag s ++ shuffle n) as [|k1 b1]; [discriminate|].
      apply IH in H. destruct H as (b & q & ->). exists b, q. now destruct s.
    + unfold mret, Rand_ret in H. rewrite Eb in H.
      apply IH in H. destruct H as (b & q & ->). exists b, q. now destruct s.
Qed.

(** With a shuffle that never returns an empty list, filling succeeds. *)
Lemma fill_queue_ok (shuffle : nat -> list string) (k : nat) :
  (forall m, shuffle m <> []) ->
  forall (s : GameState.t) (n : nat),
    exists s1 n1,
      fill_queue shuffle k s n = Ok (s1, n1)
      /\ length (next_queue s1) = (length (next_queue s) + k)%nat.
Proof.
  intros Hne. induction k as [|k IH]; intros s n.
  - exists s, n. split; [reflexivity|lia].
  - cbn [fill_queue]. unfold mbind, Rand_bind.
    destruct (bag s) as [|k0 b0] eqn:Eb.
    + unfold refill_bag. cbn [bag set_bag]. rewrite Eb. cbn [app].
      destruct (shuffle n) as [|k1 b1] eqn:Es; [now destruct (Hne n)|].
      destruct (IH (set_next_queue (next_queue (set_bag (k1 :: b1) s) ++ [k1])
                      (set_bag b1 (set_bag (k1 :: b1) s))) (S n))
        as (s1 & n1 & -> & Hlen).
      exists s1, n1. split; [reflexivity|].
      rewrite Hlen. cbn. rewrite length_app. cbn. lia.
    + unfold mret, Rand_ret. rewrite Eb.
      destruct (IH (set_next_queue (next_queue s ++ [k0]) (set_bag b0 s)) n)
        as (s1 & n1 & -> & Hlen).
      exists s1, n1. split; [reflexivity|].
      rewrite Hlen. cbn. rewrite length_app. cbn. lia.
Qed.

(** A board with a stack in column 5 up to the top row, and a T next in
    the queue: the spawn position of the T collides. *)
Lemma spawn_next_installs_colliding_piece :
  let s := set_current None
             (playing (board (replicate 20 (only [5]))) (Piece.mk "O" 0 0 0)
                      ["T"; "I"; "O"; "S"; "Z"; "J"]) in
  let piece := Piece.mk "T" 3 (-2) 0 in
  exists s',
    spawn_next in_order s 0%nat = Ok (s', 0%nat)
    /\ collides s piece = Ok true
    /\ game_over s' = true
    /\ current s' = Some piece.
Proof. eexists. vm_compute. repeat split; reflexivity. Qed.

(** C6, amended. Spawning takes the kind at the front of the replenished
    queue and builds the piece at the spawn column of the kind (3), row
    -2, rotation 0. When this position collides the game-over flag is
    set; in both cases the piece is installed as the active piece. The
    board is not touched. *)
Theorem spawn_next_installs (shuffle : nat -> list string)
  (s : GameState.t) (n : nat) :
  (forall m, shuffle m <> []) ->
  exists s1 n1 kind rest,
    fill_queue shuffle (5 - length (next_queue s)) s n = Ok (s1, n1)
    /\ next_queue s1 = kind :: rest
    /\ spawn_x kind = 3
    /\ forall c,
         collides s (Piece.mk kind (spawn_x kind) (-2) 0) = Ok c ->
         exists s',
           spawn_next shuffle s n = Ok (s', n1)
           /\ current s' = Some (Piece.mk kind 3 (-2) 0)
           /\ game_over s' = c || game_over s
           /\ grid s' = grid s
           /\ next_queue s' = rest.
Proof.
  intros Hne.
  destruct (fill_queue_ok shuffle (5 - length (next_queue s)) Hne s n)
    as (s1 & n1 & Hfill & Hlen).
  destruct (next_queue s1) as [|kind rest] eqn:Eq; [cbn in Hlen; lia|].
  exists s1, n1, kind, rest. split; [exact Hfill|]. split; [exact Eq|].
  assert (Hx : spawn_x kind = 3) by (unfold spawn_x; now destruct (negb _)).
  split; [exact Hx|]. intros c Hc.
  destruct (fill_queue_inv _ _ _ _ _ _ Hfill) as (b & q & Hs1).
  unfold spawn_next, mbind, Rand_bind. rewrite Hfill, Eq. unfold lift.
  rewrite (collides_grid _ s) by (subst s1; reflexivity).
  rewrite Hc, Hx. eexists. split; [reflexivity|].
  subst s1. destruct c; cbn; repeat split; reflexivity.
Qed.

Lemma spawn_next_installs_witness :
  let s := set_current None
             (playing (board (replicate 20 (only [5]))) (Piece.mk "O" 0 0 0)
                      ["T"; "I"; "O"; "S"; "Z"; "J"]) in
  exists s',
    spawn_next in_order s 0%nat = Ok (s', 0%nat)
    /\ current s' = Some (Piece.mk "T" 3 (-2) 0)
    /\ game_over s' = true.
Proof.
  intros s.
  destruct (spawn_next_installs in_order s 0%nat) as (s1 & n1 & kind & rest & Hfill & Hq & _ & H).
  - intros m. discriminate.
  - vm_compute in Hfill. injection Hfill as <- <-.
    vm_compute in Hq. injection Hq as <- <-.
    destruct (H true) as (s' & Hs & Hcur & Hgo & _).
    + vm_compute. reflexivity.
    + exists s'. split; [exact Hs|]. split; [exact Hcur|exact Hgo].
Defined.

(** ** Game over *)









(** ** T-spin detection and its use *)

(** C3. A T piece standing upright in a well and rotated into the slot
    under an overhang: the rotation succeeds on its second candidate. The
    centre of the landed T is (5, 18) and three of its four diagonal
    neighbours, (4, 17), (4, 19) and (6, 19), hold locked cells; the code
    looks at (3, 17), (5, 17), (3, 19) and (5, 19), finds two of them
    occupied and returns 'none'. At the origin, the corners the code
    examines are the diagonal neighbours of the centre for rotation 3
    only. *)
Lemma is_t_spin_misses_slot :
  let g := board [only [0; 1; 2; 3; 4]; filled_except [4; 5; 6];
                  filled_except [5]] in
  let s := playing g (Piece.mk "T" 4 17 3) ["I"; "O"; "T"; "S"; "Z"] in
  let landed := Piece.mk "T" 3 17 0 in
  try_rotate s 1 = Ok ((true, "none"), set_current (Some landed) s)
  /\ Piece.cells landed = Ok [(4, 18); (5, 18); (6, 18); (5, 19)]
  /\ spec_center [(4, 18); (5, 18); (6, 18); (5, 19)] = Some (5, 18)
  /\ spec_diagonals (5, 18) = [(4, 17); (6, 17); (4, 19); (6, 19)]
  /\ spec_corner_count s landed = Some 3%nat
  /\ corners_of landed = [(3, 17); (5, 17); (3, 19); (5, 19)]
  /\ count_corners g (corners_of landed) 0 = Ok 2
  /\ map (fun r =>
            match Piece.cells (Piece.mk "T" 0 0 r) with
            | Ok cs =>
                bool_decide (Some (corners_of (Piece.mk "T" 0 0 r))
                             = spec_diagonals <$> spec_center cs)
            | _ => false
            end) [0; 1; 2; 3]
     = [false; false; false; true].
Proof. vm_compute. repeat split; reflexivity. Qed.

(** C1. Two locks that clear a line and are not scored as the
    specification says.
    - A T piece is rotated (key Up) under an overhang: the third
      candidate fits, and [try_rotate] returns the flag 'tspin', which the
      loop stores in its local [tspin]. The next gravity step locks the
      piece and clears one line; the loop scores it with 'none': 100
      points, back-to-back not set. With the stored flag the same clear is
      worth 400.
    - An I piece is hard-dropped (key Space) into a gap of the bottom row.
      When the animation ends the piece is locked and the row is cleared,
      but the count is dropped: lines, combo and score (beyond the 2 points
      per row of the drop) are unchanged. The same piece locked by gravity
      in the same place scores the line. *)
Lemma lock_scoring_drops_t_spin_and_hard_drop :
  let g := board [only [3; 4; 5; 6; 7; 8; 9]; only [5; 6; 7; 8; 9];
                  only [6; 7; 8; 9]; filled_except [4]] in
  let queue := ["I"; "O"; "S"; "Z"; "J"; "L"] in
  let h := mk_locals (playing g (Piece.mk "T" 2 16 2) queue)
                     false false false None None in
  let g' := board [filled_except [3; 4; 5; 6]] in
  let h' := mk_locals (playing g' (Piece.mk "I" 3 (-2) 0) queue)
                      false false false None None in
  (exists h1 cleared locked scored,
      keydown in_order 1 64 K_UP h 0%nat = Ok (h1, 0%nat)
      /\ current (state h1) = Some (Piece.mk "T" 3 17 3)
      /\ ok_tspin h1 = Some (true, "tspin")
      /\ try_move (state h1) 0 1 = Ok (false, state h1)
      /\ lock_piece in_order (state h1) 0%nat = Ok ((cleared, locked), 0%nat)
      /\ cleared = 1
      /\ gravity_tick in_order false (state h1) 0%nat = Ok (scored, 0%nat)
      /\ scored = score_lines locked 1 "none"
      /\ score scored = 100 /\ back_to_back scored = false
      /\ score (score_lines locked 1 "tspin") = 400
      /\ back_to_back (score_lines locked 1 "tspin") = true)
  /\ (exists h1 h2 cleared locked scored,
        keydown in_order 1 64 K_SPACE h' 0%nat = Ok (h1, 0%nat)
        /\ hard_drop_target_y (state h1) = 18
        /\ score (state h1) = 40
        /\ frame in_order true 0 0 h1 0%nat = Ok (h2, 0%nat)
        /\ grid (state h2) = board []
        /\ score (state h2) = 40
        /\ GameState.lines (state h2) = 0
        /\ combo (state h2) = -1
        /\ lock_piece in_order
             (set_current (Some (Piece.mk "I" 3 18 0)) (state h')) 0%nat
           = Ok ((cleared, locked), 0%nat)
        /\ cleared = 1
        /\ gravity_tick in_order false
             (set_current (Some (Piece.mk "I" 3 18 0)) (state h')) 0%nat
           = Ok (scored, 0%nat)
        /\ GameState.lines scored = 1
        /\ combo scored = 0
        /\ score scored = 100).
Proof.
  vm_compute. split.
  - do 4 eexists. repeat split; reflexivity.
  - do 5 eexists. repeat split; reflexivity.
Qed.

(** * Further properties of the code *)

(** ** Collision *)

Lemma py_getitem_nonneg {A : Type} (l : list A) (i : Z) :
  0 <= i < Z.of_nat (length l) ->
  exists a, py_getitem l i = Ok a /\ l !! Z.to_nat i = Some a.
Proof.
  intros Hi. unfold py_getitem, py_index.
  replace ((0 <=? i) && (i <? Z.of_nat (length l))) with true by lia.
  destruct (l !! Z.to_nat i) as [a|] eqn:E; [eauto|].
  apply lookup_ge_None in E. lia.
Qed.

Lemma grid_dims_inv (g : list (list (option string))) :
  grid_dims g = true ->
  Z.of_nat (length g) = PLAY_ROWS
  /\ forall row, In row g -> Z.of_nat (length row) = PLAY_COLS.
Proof.
  unfold grid_dims. intros H. apply andb_true_iff in H as [Hlen Hrows].
  apply Z.eqb_eq in Hlen. rewrite forallb_forall in Hrows.
  split; [exact Hlen|]. intros row Hin. apply Z.eqb_eq, Hrows, Hin.
Qed.

(** The loop of [collides] returns whether some cell is blocked, whatever
    the order of the cells. *)
Lemma collides_cells_blocked (g : list (list (option string)))
  (cs : list (Z * Z)) :
  grid_dims g = true ->
  collides_cells g cs = Ok (existsb (blocked g) cs).
Proof.
  intros Hg. destruct (grid_dims_inv g Hg) as [Hlen Hrows].
  induction cs as [|[cx cy] cs IH]; [reflexivity|].
  cbn [collides_cells existsb]. unfold blocked at 1. cbn [fst snd].
  rewrite !Z.geb_leb.
  destruct (cx <? 0) eqn:E1; [reflexivity|].
  destruct (PLAY_COLS <=? cx) eqn:E2; [reflexivity|].
  destruct (PLAY_ROWS <=? cy) eqn:E3; [reflexivity|].
  cbn [orb]. destruct (0 <=? cy) eqn:E4; [|exact IH].
  destruct (py_getitem_nonneg g cy ltac:(lia)) as (row & -> & Hrow).
  assert (Hin : In row g).
  { apply list_elem_of_In. eapply list_elem_of_lookup_2, Hrow. }
  destruct (py_getitem_nonneg row cx) as (cell & Hcell & Hcol).
  { rewrite (Hrows row Hin). lia. }
  cbn [mbind result_bind]. rewrite Hcell. cbn [mbind result_bind andb].
  unfold locked_at. cbn [fst snd]. rewrite Hrow, Hcol.
  destruct cell; [reflexivity|exact IH].
Qed.

(** X1. On a board of the right size, a piece of a known kind collides
    exactly when one of its cells is outside the side walls, at or below
    the floor, or on a locked block of a row at or below the top; cells
    above the top row never collide with blocks. *)
Theorem collides_iff_blocked (s : GameState.t) (p : Piece.t)
  (rots : list Shape) :
  grid_dims (grid s) = true ->
  dict_get ROTATED (Piece.kind p) = Some rots ->
  exists cs,
    Piece.cells p = Ok cs
    /\ collides s p = Ok (existsb (blocked (grid s)) cs)
    /\ (collides s p = Ok true <->
        exists c, In c cs
          /\ (fst c < 0 \/ PLAY_COLS <= fst c \/ PLAY_ROWS <= snd c
              \/ (0 <= snd c /\ locked_at (grid s) c = true))).
Proof.
  intros Hg Hk. destruct (grid_known p rots Hk) as (g & Hgrid & _).
  exists (map (place p) (offsets g)).
  pose proof (cells_offsets p g Hgrid) as Hcells.
  assert (Hc : collides s p = Ok (existsb (blocked (grid s))
                                    (map (place p) (offsets g)))).
  { unfold collides. rewrite Hcells. cbn [mbind result_bind].
    now apply collides_cells_blocked. }
  split; [exact Hcells|]. split; [exact Hc|].
  rewrite Hc. split.
  - intros [= H]. apply existsb_exists in H as (c & Hin & Hb).
    exists c. split; [exact Hin|]. unfold blocked in Hb.
    repeat (apply orb_true_iff in Hb as [Hb|Hb]).
    + left. lia.
    + right. left. lia.
    + right. right. left. lia.
    + apply andb_true_iff in Hb as [H0 Hl]. right. right. right.
      split; [lia|exact Hl].
  - intros (c & Hin & Hc'). f_equal. apply existsb_exists. exists c.
    split; [exact Hin|]. unfold blocked.
    destruct Hc' as [H|[H|[H|[H0 Hl]]]].
    + replace (fst c <? 0) with true by lia. reflexivity.
    + replace (PLAY_COLS <=? fst c) with true by lia.
      rewrite orb_true_r. reflexivity.
    + replace (PLAY_ROWS <=? snd c) with true by lia.
      rewrite !orb_true_r. reflexivity.
    + rewrite Hl. replace (0 <=? snd c) with true by lia.
      rewrite !orb_true_r. reflexivity.
Qed.

Lemma collides_iff_blocked_witness :
  let s := playing (board [only [4]]) (Piece.mk "O" 3 17 0)
                   ["I"; "O"; "T"; "S"; "Z"] in
  collides s (Piece.mk "O" 3 17 0) = Ok true.
Proof.
  intros s.
  destruct (collides_iff_blocked s (Piece.mk "O" 3 17 0)
              [["...."; ".OO."; ".OO."; "...."]]) as (cs & Hcs & Hc & _).
  - vm_compute. reflexivity.
  - reflexivity.
  - rewrite Hc. vm_compute in Hcs. injection Hcs as <-.
    vm_compute. reflexivity.
Defined.

(** ** Shapes and cells *)

Lemma catalog_four_cells (g : Shape) : In g catalog -> four_cells g = true.
Proof. apply catalog_all. vm_compute. reflexivity. Qed.

Lemma NoDup_map_inj {A B : Type} (f : A -> B) (l : list A) :
  (forall a b, f a = f b -> a = b) -> NoDup l -> NoDup (map f l).
Proof.
  intros Hinj. induction 1 as [|a l Hnotin Hnd IH]; cbn [map].
  - constructor.
  - constructor; [|exact IH].
    intros Hin. apply Hnotin. apply list_elem_of_In in Hin.
    apply in_map_iff in Hin as (b & Hb & Hin). apply Hinj in Hb. subst b.
    now apply list_elem_of_In.
Qed.

Lemma place_inj (p : Piece.t) (a b : nat * nat) : place p a = place p b -> a = b.
Proof.
  destruct a as [i j], b as [i' j']. unfold place. cbn [fst snd].
  intros [= Hi Hj]. f_equal; lia.
Qed.

(** X2. Whatever its position and its rotation index (negative or beyond
    the rotation count), a piece of a known kind has exactly four cells,
    all different, inside the 4x4 frame whose top-left corner is the
    position of the piece. *)
Theorem cells_tetromino (p : Piece.t) (rots : list Shape) :
  dict_get ROTATED (Piece.kind p) = Some rots ->
  exists cs,
    Piece.cells p = Ok cs
    /\ length cs = 4%nat
    /\ NoDup cs
    /\ forall c, In c cs ->
         Piece.x p <= fst c <= Piece.x p + 3
         /\ Piece.y p <= snd c <= Piece.y p + 3.
Proof.
  intros Hk. destruct (grid_known p rots Hk) as (g & Hgrid & Hin).
  pose proof (catalog_four_cells g (ROTATED_in_catalog _ _ _ Hk Hin)) as H4.
  unfold four_cells in H4.
  apply andb_true_iff in H4 as [H4 Hframe].
  apply andb_true_iff in H4 as [Hlen Hnd].
  apply Nat.eqb_eq in Hlen. apply bool_decide_eq_true in Hnd.
  rewrite forallb_forall in Hframe.
  exists (map (place p) (offsets g)).
  split; [exact (cells_offsets p g Hgrid)|].
  split; [now rewrite length_map|].
  split.
  - apply NoDup_map_inj; [|exact Hnd]. intros a b. apply place_inj.
  - intros c Hc. apply in_map_iff in Hc as ([i j] & <- & Hij).
    specialize (Hframe _ Hij). cbn [fst snd] in Hframe.
    apply andb_true_iff in Hframe as [Hi Hj].
    apply Nat.ltb_lt in Hi. apply Nat.ltb_lt in Hj.
    unfold place. cbn [fst snd]. lia.
Qed.

Lemma cells_tetromino_witness :
  exists cs,
    Piece.cells (Piece.mk "S" 7 (-2) (-3)) = Ok cs /\ length cs = 4%nat.
Proof.
  destruct (cells_tetromino (Piece.mk "S" 7 (-2) (-3))
              [["...."; "..SS"; ".SS."; "...."];
               ["...."; ".S.."; ".SS."; "..S."]] eq_refl)
    as (cs & Hcs & Hlen & _).
  exists cs. split; [exact Hcs|exact Hlen].
Defined.

(** X3. The cells of a piece follow its position, and its rotation index
    counts modulo the rotation count of its kind: moving the piece by
    (dx, dy) moves every cell by (dx, dy), and adding the rotation count
    to the index changes nothing. *)
Theorem cells_translate_wrap (p : Piece.t) (rots : list Shape) (dx dy : Z) :
  dict_get ROTATED (Piece.kind p) = Some rots ->
  exists cs,
    Piece.cells p = Ok cs
    /\ Piece.cells (Piece.mk (Piece.kind p) (Piece.x p + dx) (Piece.y p + dy)
                             (Piece.r p))
       = Ok (map (fun c => (fst c + dx, snd c + dy)) cs)
    /\ Piece.cells (Piece.mk (Piece.kind p) (Piece.x p) (Piece.y p)
                             (Piece.r p + Z.of_nat (length rots)))
       = Ok cs.
Proof.
  intros Hk. destruct (grid_known p rots Hk) as (g & Hgrid & _).
  destruct (ROTATED_count _ _ Hk) as [_ Hpos].
  exists (map (place p) (offsets g)).
  split; [exact (cells_offsets p g Hgrid)|]. split.
  - rewrite (cells_offsets _ g).
    + f_equal. rewrite map_map. apply map_ext. intros [i j].
      unfold place. cbn [fst snd Piece.x Piece.y]. f_equal; lia.
    + unfold Piece.grid in *. cbn [Piece.kind Piece.r]. exact Hgrid.
  - rewrite (cells_offsets _ g); [reflexivity|].
    unfold Piece.grid, subscript, py_mod in *. cbn [Piece.kind Piece.r].
    rewrite Hk in *. cbn [mbind result_bind] in *.
    destruct (Z.of_nat (length rots) =? 0); [discriminate|].
    cbn [mbind result_bind] in *.
    rewrite <- (Z.mul_1_l (Z.of_nat (length rots))) at 1.
    rewrite Z.mod_add by lia. exact Hgrid.
Qed.

Lemma cells_translate_wrap_witness :
  Piece.cells (Piece.mk "T" 3 5 6) = Piece.cells (Piece.mk "T" 3 5 2).
Proof.
  destruct (cells_translate_wrap (Piece.mk "T" 3 5 2)
              [["...."; ".TTT"; "..T."; "...."]; ["...."; "..T."; ".TT."; "..T."];
               ["...."; ".T.."; "TTT."; "...."]; [".T.."; ".TT."; ".T.."; "...."]]
              0 0 eq_refl) as (cs & Hcs & _ & Hwrap).
  rewrite Hcs. exact Hwrap.
Defined.

Lemma frame_rows (g : Shape) :
  is_frame g = true ->
  exists a0 a1 a2 a3 b0 b1 b2 b3 c0 c1 c2 c3 d0 d1 d2 d3 : ascii,
    g = [String a0 (String a1 (String a2 (String a3 "")));
         String b0 (String b1 (String b2 (String b3 "")));
         String c0 (String c1 (String c2 (String c3 "")));
         String d0 (String d1 (String d2 (String d3 "")))].
Proof.
  unfold is_frame. intros H. apply andb_true_iff in H as [Hlen Hrows].
  destruct g as [|ra [|rb [|rc [|rd [|]]]]]; try discriminate.
  cbn [forallb] in Hrows.
  repeat (apply andb_true_iff in Hrows as [?H Hrows]).
  repeat match goal with
         | H : (String.length ?s =? 4)%nat = true |- _ =>
             destruct s as [|? [|? [|? [|? [|]]]]]; try discriminate; clear H
         end.
  repeat eexists.
Qed.

(** X4. Rotating a 4x4 grid four times gives the grid back, and every
    rotation of a 4x4 grid is a 4x4 grid. *)
Theorem rotate_shape_four_times (g : Shape) :
  is_frame g = true ->
  rotate_n 4 g = g /\ is_frame (rotate_shape g) = true.
Proof.
  intros H.
  destruct (frame_rows g H)
    as (a0 & a1 & a2 & a3 & b0 & b1 & b2 & b3 & c0 & c1 & c2 & c3
        & d0 & d1 & d2 & d3 & ->).
  split; reflexivity.
Qed.

Lemma rotate_shape_four_times_witness :
  rotate_n 4 ["AB.."; "..C."; "...D"; "E..."] = ["AB.."; "..C."; "...D"; "E..."].
Proof.
  exact (proj1 (rotate_shape_four_times ["AB.."; "..C."; "...D"; "E..."] eq_refl)).
Defined.

(** ** Line clearing *)

Lemma filter_split_length {A : Type} (f : A -> bool) (l : list A) :
  (length (List.filter f l) + length (List.filter (fun a => negb (f a)) l)
   = length l)%nat.
Proof.
  induction l as [|a l IH]; [reflexivity|].
  cbn [List.filter]. destruct (f a); cbn [negb length]; lia.
Qed.

Lemma filter_all {A : Type} (f : A -> bool) (l : list A) :
  length (List.filter f l) = length l -> List.filter f l = l.
Proof.
  induction l as [|a l IH]; [reflexivity|].
  cbn [List.filter]. destruct (f a) eqn:E; cbn [length]; intros H.
  - f_equal. apply IH. lia.
  - pose proof (filter_split_length f l). lia.
Qed.

Lemma forallb_app_true {A : Type} (f : A -> bool) (l1 l2 : list A) :
  forallb f l1 = true -> forallb f l2 = true -> forallb f (l1 ++ l2) = true.
Proof. intros H1 H2. rewrite forallb_app, H1, H2. reflexivity. Qed.

Lemma forallb_replicate {A : Type} (f : A -> bool) (n : nat) (a : A) :
  f a = true -> forallb f (replicate n a) = true.
Proof. intros H. induction n as [|n IH]; cbn; [reflexivity|now rewrite H]. Qed.

Lemma forallb_filter {A : Type} (f h : A -> bool) (l : list A) :
  forallb f l = true -> forallb f (List.filter h l) = true.
Proof.
  intros H. rewrite forallb_forall in *. intros a Ha.
  apply filter_In in Ha as [Ha _]. now apply H.
Qed.

Lemma locked_count_app (g1 g2 : list (list (option string))) :
  locked_count (g1 ++ g2) = locked_count g1 + locked_count g2.
Proof.
  unfold locked_count.
  induction g1 as [|row g1 IH]; cbn [app fold_right]; [reflexivity|].
  rewrite IH. lia.
Qed.

Lemma locked_count_empty_rows (n : nat) :
  locked_count (replicate n empty_row) = 0.
Proof.
  unfold locked_count. induction n as [|n IH]; [reflexivity|].
  cbn [replicate fold_right]. rewrite IH. reflexivity.
Qed.

Lemma full_row_locked (row : list (option string)) :
  full_row row = true -> List.filter is_not_None row = row.
Proof.
  unfold full_row. induction row as [|[c|] row IH]; cbn; try discriminate.
  - reflexivity.
  - intros H. f_equal. now apply IH.
Qed.

(** Removing the full rows removes [PLAY_COLS] blocks per row. *)
Lemma locked_count_kept (g : list (list (option string))) :
  forallb (fun row => Z.of_nat (length row) =? PLAY_COLS) g = true ->
  locked_count (List.filter (fun row => negb (full_row row)) g)
  = locked_count g
    - PLAY_COLS * Z.of_nat (length (List.filter full_row g)).
Proof.
  induction g as [|row g IH]; [reflexivity|].
  cbn [forallb List.filter]. intros H. apply andb_true_iff in H as [Hrow Hg].
  apply Z.eqb_eq in Hrow. specialize (IH Hg).
  unfold locked_count in *.
  destruct (full_row row) eqn:E; cbn [negb length fold_right].
  - rewrite IH, (full_row_locked row E). lia.
  - rewrite IH. lia.
Qed.

Lemma filter_kept_none {A : Type} (f : A -> bool) (l : list A) :
  List.filter f (List.filter (fun a => negb (f a)) l) = [].
Proof.
  induction l as [|a l IH]; [reflexivity|].
  cbn [List.filter]. destruct (f a) eqn:E; cbn [negb List.filter];
    [exact IH|]. rewrite E. exact IH.
Qed.

Lemma clear_lines_kept (s : GameState.t) :
  clear_lines s =
    let kept := List.filter (fun row => negb (full_row row)) (grid s) in
    (PLAY_ROWS - Z.of_nat (length kept),
     set_grid (replicate (Z.to_nat (PLAY_ROWS - Z.of_nat (length kept)))
                         empty_row ++ kept) s).
Proof.
  unfold clear_lines, full_row. cbn zeta.
  assert (E : List.filter
                (fun row => existsb (fun cell => negb (is_not_None cell)) row)
                (grid s)
              = List.filter
                  (fun row => negb (negb (existsb
                     (fun cell => negb (is_not_None cell)) row))) (grid s)).
  { apply filter_ext. intros row. now rewrite negb_involutive. }
  rewrite E. reflexivity.
Qed.

(** What [clear_lines] does on a board of the right size, in terms of
    the full rows and the rows kept. *)
Lemma clear_lines_on_board (s : GameState.t) :
  grid_dims (grid s) = true ->
  clear_lines s
  = (Z.of_nat (length (List.filter full_row (grid s))),
     set_grid (replicate (length (List.filter full_row (grid s))) empty_row
               ++ List.filter (fun row => negb (full_row row)) (grid s)) s)
  /\ grid_dims (replicate (length (List.filter full_row (grid s))) empty_row
                ++ List.filter (fun row => negb (full_row row)) (grid s))
     = true.
Proof.
  intros Hg. rewrite clear_lines_kept. cbn zeta.
  destruct (grid_dims_inv _ Hg) as [Hlen Hrows].
  pose proof (filter_split_length full_row (grid s)) as Hsplit.
  assert (Hcleared :
            PLAY_ROWS
            - Z.of_nat (length (List.filter (fun row => negb (full_row row))
                                            (grid s)))
            = Z.of_nat (length (List.filter full_row (grid s)))) by lia.
  rewrite Hcleared, Nat2Z.id. split; [reflexivity|].
  unfold grid_dims in *. apply andb_true_iff in Hg as [_ Hcols].
  apply andb_true_iff. split.
  - apply Z.eqb_eq. rewrite length_app, length_replicate. lia.
  - apply forallb_app_true.
    + apply forallb_replicate. reflexivity.
    + now apply forallb_filter.
Qed.

(** X5. On a board of the right size [clear_lines] returns the number of
    full rows, removes exactly those rows, keeps the others in order below
    as many empty rows, and gives back a board of the right size on which
    no row is full. It removes [PLAY_COLS] locked blocks per cleared row
    and no other block, and touches nothing but the board. *)
Theorem clear_lines_full_rows (s : GameState.t) :
  grid_dims (grid s) = true ->
  let cleared := fst (clear_lines s) in
  let s' := snd (clear_lines s) in
  cleared = Z.of_nat (length (List.filter full_row (grid s)))
  /\ 0 <= cleared <= PLAY_ROWS
  /\ grid s' = replicate (Z.to_nat cleared) empty_row
               ++ List.filter (fun row => negb (full_row row)) (grid s)
  /\ s' = set_grid (grid s') s
  /\ grid_dims (grid s') = true
  /\ List.filter full_row (grid s') = []
  /\ locked_count (grid s') = locked_count (grid s) - PLAY_COLS * cleared.
Proof.
  intros Hg cleared s'. subst cleared s'.
  destruct (clear_lines_on_board s Hg) as [-> Hdims].
  cbn [fst snd grid set_grid]. rewrite Nat2Z.id.
  pose proof (filter_split_length full_row (grid s)) as Hsplit.
  destruct (grid_dims_inv _ Hg) as [Hlen _].
  split; [reflexivity|]. split; [lia|]. split; [reflexivity|].
  split; [now destruct s|]. split; [exact Hdims|]. split.
  - rewrite List.filter_app.
    assert (E1 : forall k, List.filter full_row (replicate k empty_row) = []).
    { induction k as [|k IH]; [reflexivity|exact IH]. }
    rewrite E1. cbn [app]. apply filter_kept_none.
  - rewrite locked_count_app, locked_count_empty_rows.
    unfold grid_dims in Hg. apply andb_true_iff in Hg as [_ Hcols].
    rewrite (locked_count_kept _ Hcols). lia.
Qed.

Lemma clear_lines_full_rows_witness :
  let s := playing (board [filled_except []; only [2]; filled_except []])
                   (Piece.mk "O" 3 0 0) ["I"; "O"; "T"; "S"; "Z"] in
  fst (clear_lines s) = 2
  /\ grid (snd (clear_lines s)) = board [only [2]].
Proof.
  intros s.
  destruct (clear_lines_full_rows s) as (Hc & _ & Hgrid & _).
  - vm_compute. reflexivity.
  - split; [rewrite Hc|rewrite Hgrid, Hc]; vm_compute; reflexivity.
Defined.

(** X6. Clearing is idempotent: on a board of the right size a second
    [clear_lines] clears nothing and leaves the state as it is; so does
    the first one when no row is full. *)
Theorem clear_lines_twice (s : GameState.t) :
  grid_dims (grid s) = true ->
  clear_lines (snd (clear_lines s)) = (0, snd (clear_lines s))
  /\ (List.filter full_row (grid s) = [] -> clear_lines s = (0, s)).
Proof.
  intros Hg.
  assert (Hnone : forall t, grid_dims (grid t) = true ->
                    List.filter full_row (grid t) = [] -> clear_lines t = (0, t)).
  { intros t Ht Hfull. destruct (clear_lines_on_board t Ht) as [-> _].
    pose proof (filter_split_length full_row (grid t)) as Hsplit.
    rewrite Hfull in *. cbn [length replicate app Z.of_nat] in *.
    rewrite (filter_all _ _ Hsplit). f_equal. now destruct t. }
  split; [|now apply Hnone].
  destruct (clear_lines_on_board s Hg) as [-> Hdims]. cbn [snd].
  apply Hnone; cbn [grid set_grid]; [exact Hdims|].
  rewrite List.filter_app.
  assert (E1 : forall k, List.filter full_row (replicate k empty_row) = []).
  { induction k as [|k IH]; [reflexivity|exact IH]. }
  rewrite E1. cbn [app]. apply filter_kept_none.
Qed.

Lemma clear_lines_twice_witness :
  let s := playing (board [filled_except []; only [2]; filled_except []])
                   (Piece.mk "O" 3 0 0) ["I"; "O"; "T"; "S"; "Z"] in
  clear_lines (snd (clear_lines s)) = (0, snd (clear_lines s)).
Proof.
  intros s. apply (clear_lines_twice s). vm_compute. reflexivity.
Defined.

(** ** Moves and rotations keep the active piece in a legal place *)

Lemma set_current_same (s : GameState.t) (p q : option Piece.t) :
  set_current p (set_current q s) = set_current p s.
Proof. now destruct s. Qed.

Lemma set_current_id (s : GameState.t) : set_current (current s) s = s.
Proof. now destruct s. Qed.

(** X7. A successful [try_move] changes the active piece and nothing
    else, puts it where it does not collide, and can be undone: moving
    back by the opposite offset succeeds and restores the state, provided
    the piece was in a legal place before. A failed [try_move] leaves the
    state as it is. *)
Theorem try_move_undo (s s' : GameState.t) (dx dy : Z) (b : bool) :
  try_move s dx dy = Ok (b, s') ->
  (b = false -> s' = s)
  /\ (b = true ->
      exists cur,
        current s = Some cur
        /\ s' = set_current
                  (Some (Piece.mk (Piece.kind cur) (Piece.x cur + dx)
                                  (Piece.y cur + dy) (Piece.r cur))) s
        /\ collides s' (Piece.mk (Piece.kind cur) (Piece.x cur + dx)
                                 (Piece.y cur + dy) (Piece.r cur)) = Ok false
        /\ (collides s cur = Ok false ->
            try_move s' (- dx) (- dy) = Ok (true, s))).
Proof.
  unfold try_move at 1. destruct (current s) as [cur|] eqn:Hcur.
  - destruct (collides s _) as [[|]| |] eqn:Hc; cbn; try discriminate;
      intros [= <- <-]; (split; [try discriminate; reflexivity|]);
      try discriminate.
    intros _. exists cur. split; [reflexivity|]. split; [reflexivity|].
    split; [rewrite <- Hc; now apply collides_grid|].
    intros Hlegal. unfold try_move. cbn [current set_current Piece.kind
      Piece.x Piece.y Piece.r].
    replace (Piece.x cur + dx + - dx) with (Piece.x cur) by lia.
    replace (Piece.y cur + dy + - dy) with (Piece.y cur) by lia.
    assert (Heta : Piece.mk (Piece.kind cur) (Piece.x cur) (Piece.y cur)
                            (Piece.r cur) = cur) by now destruct cur.
    rewrite Heta.
    match goal with
    | |- context [collides ?a cur] =>
        rewrite (collides_grid a s cur eq_refl), Hlegal
    end. cbn.
    rewrite set_current_same, <- Hcur, set_current_id. reflexivity.
  - intros [= <- <-]. split; [reflexivity|discriminate].
Qed.

Lemma try_move_undo_witness :
  let s := playing (board [only [0]]) (Piece.mk "L" 3 5 1)
                   ["I"; "O"; "T"; "S"; "Z"] in
  exists s', try_move s (-1) 0 = Ok (true, s')
             /\ try_move s' 1 0 = Ok (true, s).
Proof.
  intros s. eexists. split; [vm_compute; reflexivity|].
  destruct (try_move_undo s _ (-1) 0 true ltac:(vm_compute; reflexivity))
    as [_ H].
  destruct (H eq_refl) as (cur & Hcur & _ & _ & Hundo).
  injection Hcur as <-. apply Hundo. vm_compute. reflexivity.
Defined.

Lemma pair_get_In (t : list ((Z * Z) * list Kick)) (k : Z * Z) (l : list Kick) :
  pair_get t k = Some l -> exists k', In (k', l) t.
Proof.
  induction t as [|[[a b] v] t IH]; cbn [pair_get]; [discriminate|].
  destruct ((a =? fst k) && (b =? snd k)).
  - intros [= <-]. exists (a, b). now left.
  - intros H. destruct (IH H) as (k' & Hin). exists k'. now right.
Qed.

Lemma tables_small_ok : tables_small = true.
Proof. vm_compute. reflexivity. Qed.

Lemma kicks_for_small (which : string) (from_r to_r : Z) (k : Kick) :
  In k (kicks_for which from_r to_r) ->
  Z.abs (fst k) <= 2 /\ Z.abs (snd k) <= 2.
Proof.
  unfold kicks_for. intros Hin.
  assert (Hsmall : kicks_small
            (default [(0, 0)]
               (pair_get (default [] (dict_get KICKS which)) (from_r, to_r)))
            = true).
  { destruct (dict_get KICKS which) as [table|] eqn:Ew; [|reflexivity].
    change (default [] (Some table)) with table.
    destruct (pair_get table (from_r, to_r)) as [l|] eqn:El; [|reflexivity].
    change (default [(0, 0)] (Some l)) with l. apply dict_get_In in Ew. apply pair_get_In in El as (k' & Hl).
    pose proof tables_small_ok as H. unfold tables_small in H.
    rewrite forallb_forall in H. specialize (H _ Ew). cbn [snd] in H.
    rewrite forallb_forall in H. exact (H _ Hl). }
  unfold kicks_small in Hsmall. rewrite forallb_forall in Hsmall.
  specialize (Hsmall _ Hin). apply andb_true_iff in Hsmall as [H1 H2].
  lia.
Qed.

Lemma try_kicks_outcome (s : GameState.t) (cur : Piece.t) (to_r : Z)
  (kicks : list Kick) (b : bool) (t : string) (s' : GameState.t) :
  try_kicks s cur to_r kicks = Ok ((b, t), s') ->
  (b = false -> s' = s /\ t = "none")
  /\ (b = true ->
      exists k,
        In k kicks
        /\ s' = set_current (Some (candidate cur to_r k)) s
        /\ collides s (candidate cur to_r k) = Ok false
        /\ is_t_spin s' (candidate cur to_r k) (kicked k) = Ok t).
Proof.
  induction kicks as [|[dx dy] kicks IH]; cbn [try_kicks].
  - intros [= <- <- <-]. split; [now split|discriminate].
  - destruct (collides s _) as [[|]| |] eqn:Hc; cbn; try discriminate.
    + intros H. destruct (IH H) as [Hf Ht]. split; [exact Hf|].
      intros Hb. destruct (Ht Hb) as (k & Hin & Hrest).
      exists k. split; [now right|exact Hrest].
    + destruct (is_t_spin _ _ _) as [t0| |] eqn:Et; cbn; try discriminate.
      intros [= <- <- <-]. split; [discriminate|]. intros _.
      exists (dx, dy). split; [now left|]. split; [reflexivity|].
      split; [exact Hc|exact Et].
Qed.

(** X8. A successful [try_rotate] changes the active piece and nothing
    else: the new piece has the same kind, a rotation index within the
    rotation count, a position at most two columns and two rows away from
    the old one, and does not collide. The flag is 'tspin' for a T piece
    only. A failed [try_rotate] leaves the state as it is and returns
    'none'. *)
Theorem try_rotate_outcome (s s' : GameState.t) (dr : Z) (b : bool)
  (t : string) (cur : Piece.t) :
  current s = Some cur ->
  try_rotate s dr = Ok ((b, t), s') ->
  (b = false -> s' = s /\ t = "none")
  /\ (b = true ->
      exists new count,
        dict_get ROTATIONS (Piece.kind cur) = Some count
        /\ s' = set_current (Some new) s
        /\ Piece.kind new = Piece.kind cur
        /\ Piece.r new = (Piece.r cur + dr) mod Z.of_nat count
        /\ 0 <= Piece.r new < Z.of_nat count
        /\ Z.abs (Piece.x new - Piece.x cur) <= 2
        /\ Z.abs (Piece.y new - Piece.y cur) <= 2
        /\ collides s' new = Ok false
        /\ (t = "tspin" -> Piece.kind cur = "T")).
Proof.
  intros Hcur. unfold try_rotate. rewrite Hcur. unfold subscript.
  destruct (dict_get ROTATED (Piece.kind cur)) as [rots|] eqn:Hk;
    [|discriminate].
  destruct (ROTATED_count _ _ Hk) as [Hcount Hpos].
  cbn [mbind result_bind]. unfold py_mod.
  destruct (Z.eqb_spec (Z.of_nat (length rots)) 0) as [E|_]; [lia|].
  cbn [mbind result_bind]. intros H.
  destruct (try_kicks_outcome _ _ _ _ _ _ _ H) as [Hf Ht].
  split; [exact Hf|]. intros Hb.
  destruct (Ht Hb) as ([dx dy] & Hin & -> & Hc & Hspin).
  apply kicks_for_small in Hin. cbn [fst snd] in Hin.
  eexists _, (length rots). split; [exact Hcount|]. split; [reflexivity|].
  unfold candidate. cbn [Piece.kind Piece.r Piece.x Piece.y fst snd].
  split; [reflexivity|]. split; [reflexivity|].
  split; [apply Z.mod_pos_bound; lia|].
  split; [lia|]. split; [lia|].
  split; [rewrite <- Hc; now apply collides_grid|].
  intros ->. unfold is_t_spin, candidate in Hspin.
  cbn [Piece.kind] in Hspin. revert Hspin.
  destruct (String.eqb_spec (Piece.kind cur) "T") as [E|E]; [intros _; exact E|].
  cbn [negb]. discriminate.
Qed.

Lemma try_rotate_outcome_witness :
  let s := playing (board []) (Piece.mk "T" (-1) 5 1) ["I"; "O"; "T"; "S"; "Z"] in
  exists new,
    try_rotate s 1 = Ok ((true, "none"), set_current (Some new) s)
    /\ Z.abs (Piece.x new - (-1)) <= 2.
Proof.
  intros s.
  destruct (try_rotate_outcome s
              (set_current (Some (Piece.mk "T" 0 5 2)) s) 1 true "none"
              (Piece.mk "T" (-1) 5 1) eq_refl) as [_ H].
  - vm_compute. reflexivity.
  - destruct (H eq_refl) as (new & count & _ & Hs & _ & _ & _ & Hx & _).
    exists new. split; [|exact Hx].
    rewrite <- Hs. vm_compute. reflexivity.
Defined.

(** ** Locking writes the piece into the board *)

Lemma py_setitem_nonneg {A : Type} (l : list A) (i : Z) (v : A) :
  0 <= i < Z.of_nat (length l) ->
  py_setitem l i v = Ok (<[Z.to_nat i := v]> l).
Proof.
  intros Hi. unfold py_setitem, py_index.
  replace ((0 <=? i) && (i <? Z.of_nat (length l))) with true by lia.
  reflexivity.
Qed.

Lemma py_setitem_length {A : Type} (l l' : list A) (i : Z) (v : A) :
  py_setitem l i v = Ok l' -> length l' = length l.
Proof.
  unfold py_setitem. destruct (py_index _ _) as [n|]; [|discriminate].
  intros [= <-]. apply length_insert.
Qed.

Lemma blocks_in_row_insert (row : list (option string)) (i : nat) (k : string) :
  row !! i = Some None ->
  blocks_in_row (<[i := Some k]> row) = blocks_in_row row + 1.
Proof.
  unfold blocks_in_row. intros H.
  enough (E : length (List.filter is_not_None (<[i := Some k]> row))
              = S (length (List.filter is_not_None row))) by lia.
  revert i H. induction row as [|c row IH]; intros [|i] H; try discriminate.
  - injection H as ->. reflexivity.
  - specialize (IH i H).
    change (<[S i := Some k]> (c :: row)) with (c :: <[i := Some k]> row).
    cbn [List.filter]. destruct (is_not_None c); cbn [length]; lia.
Qed.

Lemma locked_count_insert (g : list (list (option string))) (j : nat)
  (row row' : list (option string)) :
  g !! j = Some row ->
  locked_count (<[j := row']> g)
  = locked_count g - blocks_in_row row + blocks_in_row row'.
Proof.
  unfold locked_count, blocks_in_row. revert j.
  induction g as [|r g IH]; intros [|j] H; try discriminate.
  - injection H as <-.
    change (<[0%nat := row']> (r :: g)) with (row' :: g).
    cbn [fold_right]. lia.
  - specialize (IH j H).
    change (<[S j := row']> (r :: g)) with (r :: <[j := row']> g).
    cbn [fold_right]. lia.
Qed.

Lemma grid_dims_insert (g : list (list (option string))) (j : nat)
  (row' : list (option string)) :
  grid_dims g = true ->
  Z.of_nat (length row') = PLAY_COLS ->
  grid_dims (<[j := row']> g) = true.
Proof.
  intros Hg Hrow'. destruct (grid_dims_inv g Hg) as [Hlen Hrows].
  unfold grid_dims. apply andb_true_iff. split.
  - apply Z.eqb_eq. now rewrite length_insert.
  - apply forallb_forall. intros r Hr. apply Z.eqb_eq.
    apply list_elem_of_In, list_elem_of_lookup in Hr as [i Hi].
    destruct (decide (i = j)) as [->|Hne].
    + destruct (decide (j < length g)%nat) as [Hlt|Hge].
      * rewrite list_lookup_insert_eq in Hi by exact Hlt. now injection Hi as <-.
      * rewrite list_insert_ge in Hi by lia.
        apply Hrows, list_elem_of_In. eapply list_elem_of_lookup_2, Hi.
    + rewrite list_lookup_insert_ne in Hi by congruence.
      apply Hrows, list_elem_of_In. eapply list_elem_of_lookup_2, Hi.
Qed.

(** Writing one empty cell of the board. *)
Lemma write_cell (g : list (list (option string))) (c : Z * Z) (k : string) :
  grid_dims g = true -> in_board c -> cell_at g c = Some None ->
  exists row,
    g !! Z.to_nat (snd c) = Some row
    /\ py_getitem g (snd c) = Ok row
    /\ py_setitem row (fst c) (Some k)
       = Ok (<[Z.to_nat (fst c) := Some k]> row)
    /\ py_setitem g (snd c) (<[Z.to_nat (fst c) := Some k]> row)
       = Ok (<[Z.to_nat (snd c) := <[Z.to_nat (fst c) := Some k]> row]> g)
    /\ row !! Z.to_nat (fst c) = Some None.
Proof.
  intros Hg [Hx Hy] Hcell. destruct (grid_dims_inv g Hg) as [Hlen Hrows].
  destruct (py_getitem_nonneg g (snd c) ltac:(lia)) as (row & Hget & Hrow).
  exists row. split; [exact Hrow|]. split; [exact Hget|].
  assert (Hin : In row g).
  { apply list_elem_of_In. eapply list_elem_of_lookup_2, Hrow. }
  pose proof (Hrows row Hin) as Hcols.
  split; [apply py_setitem_nonneg; lia|].
  split; [apply py_setitem_nonneg; lia|].
  unfold cell_at in Hcell. rewrite Hrow in Hcell. exact Hcell.
Qed.

Lemma cell_at_write (g : list (list (option string))) (c c' : Z * Z)
  (k : string) (row : list (option string)) :
  grid_dims g = true -> in_board c -> in_board c' ->
  g !! Z.to_nat (snd c) = Some row ->
  cell_at (<[Z.to_nat (snd c) := <[Z.to_nat (fst c) := Some k]> row]> g) c'
  = if decide (c' = c) then Some (Some k) else cell_at g c'.
Proof.
  intros Hg [Hx Hy] [Hx' Hy'] Hrow.
  destruct (grid_dims_inv g Hg) as [Hlen Hrows].
  assert (Hin : In row g).
  { apply list_elem_of_In. eapply list_elem_of_lookup_2, Hrow. }
  pose proof (Hrows row Hin) as Hcols.
  unfold cell_at.
  destruct (decide (Z.to_nat (snd c') = Z.to_nat (snd c))) as [Ey|Ey].
  - rewrite Ey, list_lookup_insert_eq by lia. cbn [mbind option_bind].
    destruct (decide (Z.to_nat (fst c') = Z.to_nat (fst c))) as [Ex|Ex].
    + rewrite Ex, list_lookup_insert_eq by lia.
      destruct (decide (c' = c)) as [_|Hne]; [reflexivity|].
      exfalso. apply Hne. destruct c, c'. cbn in *. f_equal; lia.
    + rewrite list_lookup_insert_ne by congruence. rewrite Hrow.
      cbn [mbind option_bind].
      destruct (decide (c' = c)) as [->|_]; [congruence|reflexivity].
  - rewrite list_lookup_insert_ne by congruence.
    destruct (decide (c' = c)) as [->|_]; [congruence|reflexivity].
Qed.

(** The loop of [lock_piece] on cells that are all on the board, all
    empty and all different. *)
Lemma lock_cells_writes (kind : string) (cs : list (Z * Z)) :
  forall s : GameState.t,
    grid_dims (grid s) = true ->
    NoDup cs ->
    (forall c, In c cs -> in_board c /\ cell_at (grid s) c = Some None) ->
    exists g1,
      lock_cells kind cs s = Ok (false, set_grid g1 s)
      /\ grid_dims g1 = true
      /\ (forall c, in_board c ->
            cell_at g1 c
            = if decide (c ∈ cs) then Some (Some kind) else cell_at (grid s) c)
      /\ locked_count g1 = locked_count (grid s) + Z.of_nat (length cs).
Proof.
  induction cs as [|c cs IH]; intros s Hg Hnd Hcs.
  - exists (grid s). split; [now destruct s|]. split; [exact Hg|].
    split; [intros c _; reflexivity|cbn; lia].
  - apply NoDup_cons in Hnd as [Hnotin Hnd].
    destruct (Hcs c (or_introl eq_refl)) as [Hc Hempty].
    destruct (write_cell (grid s) c kind Hg Hc Hempty)
      as (row & Hrow & Hget & Hset1 & Hset2 & Hcol).
    set (g' := <[Z.to_nat (snd c) := <[Z.to_nat (fst c) := Some kind]> row]>
                 (grid s)).
    assert (Hg' : grid_dims g' = true).
    { apply grid_dims_insert; [exact Hg|]. rewrite length_insert.
      destruct (grid_dims_inv _ Hg) as [_ Hrows]. apply Hrows.
      apply list_elem_of_In. eapply list_elem_of_lookup_2, Hrow. }
    destruct (IH (set_grid g' s)) as (g1 & Hrun & Hg1 & Hcells & Hcount).
    + exact Hg'.
    + exact Hnd.
    + intros c' Hc'. destruct (Hcs c' (or_intror Hc')) as [Hb He].
      split; [exact Hb|]. cbn [grid set_grid]. subst g'.
      rewrite (cell_at_write _ c c' kind row Hg Hc Hb Hrow).
      destruct (decide (c' = c)) as [->|_]; [|exact He].
      exfalso. apply Hnotin. now apply list_elem_of_In.
    + exists g1. split; [|split; [exact Hg1|split]].
      * destruct c as [cx cy]. cbn [lock_cells]. cbn [fst snd] in *.
        replace (cy <? 0) with false by (destruct Hc; cbn in *; lia).
        rewrite Hget. cbn [mbind result_bind]. rewrite Hset1.
        cbn [mbind result_bind]. rewrite Hset2. cbn [mbind result_bind].
        fold g'. rewrite Hrun. now destruct s.
      * intros c' Hb'. rewrite (Hcells c' Hb'). cbn [grid set_grid]. subst g'.
        rewrite (cell_at_write _ c c' kind row Hg Hc Hb' Hrow).
        destruct (decide (c' ∈ cs)) as [Hin|Hnin].
        -- destruct (decide (c' ∈ c :: cs)) as [_|Hn]; [reflexivity|].
           exfalso. apply Hn. apply elem_of_cons. now right.
        -- destruct (decide (c' = c)) as [->|Hne].
           ++ destruct (decide (c ∈ c :: cs)) as [_|Hn]; [reflexivity|].
              exfalso. apply Hn. apply elem_of_cons. now left.
           ++ destruct (decide (c' ∈ c :: cs)) as [Hin|_]; [|reflexivity].
              apply elem_of_cons in Hin as [E|Hin]; [congruence|contradiction].
      * rewrite Hcount. cbn [grid set_grid length]. subst g'.
        rewrite (locked_count_insert _ _ row _ Hrow).
        rewrite (blocks_in_row_insert row _ kind Hcol). lia.
Qed.

Lemma not_blocked_empty (g : list (list (option string))) (c : Z * Z) :
  grid_dims g = true -> blocked g c = false -> 0 <= snd c ->
  in_board c /\ cell_at g c = Some None.
Proof.
  intros Hg Hb Hy. unfold blocked in Hb.
  repeat (apply orb_false_iff in Hb as [Hb ?H]).
  apply andb_false_iff in H as [H|H]; [lia|].
  assert (Hin : in_board c) by (unfold in_board; lia).
  split; [exact Hin|]. destruct Hin as [Hx _].
  destruct (grid_dims_inv g Hg) as [Hlen Hrows].
  destruct (py_getitem_nonneg g (snd c) ltac:(lia)) as (row & _ & Hrow).
  assert (Hrow_in : In row g).
  { apply list_elem_of_In. eapply list_elem_of_lookup_2, Hrow. }
  destruct (py_getitem_nonneg row (fst c)) as (cell & _ & Hcell).
  { rewrite (Hrows row Hrow_in). lia. }
  unfold cell_at, locked_at in *. rewrite Hrow in *. cbn [mbind option_bind].
  rewrite Hcell in *. destruct cell; [discriminate|reflexivity].
Qed.

(** X9. Locking a piece that lies on the board without colliding, all its
    cells at row 0 or below: the four cells of the piece receive its kind,
    every other cell of the board keeps its content, so the board gains
    exactly four blocks; then the full lines are cleared, hold is
    re-enabled and the next piece is spawned. *)
Theorem lock_piece_writes (shuffle : nat -> list string) (s : GameState.t)
  (cur : Piece.t) (cs : list (Z * Z)) (n : nat) :
  grid_dims (grid s) = true ->
  current s = Some cur ->
  Piece.cells cur = Ok cs ->
  collides s cur = Ok false ->
  (forall c, In c cs -> 0 <= snd c) ->
  exists g1,
    lock_cells (Piece.kind cur) cs s = Ok (false, set_grid g1 s)
    /\ grid_dims g1 = true
    /\ (forall c, in_board c ->
          cell_at g1 c
          = if decide (c ∈ cs) then Some (Some (Piece.kind cur))
            else cell_at (grid s) c)
    /\ locked_count g1 = locked_count (grid s) + 4
    /\ lock_piece shuffle s n
       = (let '(cleared, s2) := clear_lines (set_grid g1 s) in
          s3 ← spawn_next shuffle (set_current None (set_can_hold true s2));
          mret (cleared, s3)) n.
Proof.
  intros Hg Hcur Hcells Hfree Hrows.
  destruct (cells_inv cur cs Hcells) as (g & Hcat & Hgrid & Hcs).
  pose proof (catalog_four_cells g Hcat) as H4. unfold four_cells in H4.
  apply andb_true_iff in H4 as [H4 _].
  apply andb_true_iff in H4 as [Hlen Hnd].
  apply Nat.eqb_eq in Hlen. apply bool_decide_eq_true in Hnd.
  assert (Hnd' : NoDup cs).
  { subst cs. apply NoDup_map_inj; [|exact Hnd]. intros a b. apply place_inj. }
  assert (Hlen' : length cs = 4%nat) by (subst cs; now rewrite length_map).
  assert (Hempty : forall c, In c cs ->
                     in_board c /\ cell_at (grid s) c = Some None).
  { intros c Hc. apply not_blocked_empty; [exact Hg| |now apply Hrows].
    unfold collides in Hfree. rewrite Hcells in Hfree.
    cbn [mbind result_bind] in Hfree.
    rewrite (collides_cells_blocked _ _ Hg) in Hfree.
    injection Hfree as Hfree.
    destruct (blocked (grid s) c) eqn:E; [|reflexivity].
    rewrite <- Hfree. symmetry. apply existsb_exists. now exists c. }
  destruct (lock_cells_writes (Piece.kind cur) cs s Hg Hnd' Hempty)
    as (g1 & Hrun & Hg1 & Hcell & Hcount).
  exists g1. split; [exact Hrun|]. split; [exact Hg1|].
  split; [exact Hcell|]. split; [rewrite Hcount, Hlen'; reflexivity|].
  unfold lock_piece. rewrite Hcur. unfold mbind at 1, Rand_bind at 1.
  unfold lift at 1. rewrite Hcells.
  unfold mbind at 1, Rand_bind at 1. unfold lift at 1. rewrite Hrun.
  reflexivity.
Qed.

Lemma lock_piece_writes_witness :
  let s := playing (board [filled_except [4; 5]; filled_except [4; 5]])
                   (Piece.mk "O" 3 17 0) ["I"; "O"; "T"; "S"; "Z"] in
  exists g1,
    lock_cells "O" [(4, 18); (5, 18); (4, 19); (5, 19)] s
    = Ok (false, set_grid g1 s)
    /\ locked_count g1 = 20.
Proof.
  intros s.
  destruct (lock_piece_writes in_order s (Piece.mk "O" 3 17 0)
              [(4, 18); (5, 18); (4, 19); (5, 19)] 0%nat)
    as (g1 & Hrun & _ & _ & Hcount & _).
  - vm_compute. reflexivity.
  - reflexivity.
  - vm_compute. reflexivity.
  - vm_compute. reflexivity.
  - intros c [<-|[<-|[<-|[<-|[]]]]]; cbn; lia.
  - exists g1. split; [exact Hrun|]. rewrite Hcount. vm_compute. reflexivity.
Defined.

(** ** The size of the board is an invariant of the game loop *)

Lemma py_getitem_In {A : Type} (l : list A) (i : Z) (a : A) :
  py_getitem l i = Ok a -> In a l.
Proof.
  unfold py_getitem. destruct (py_index _ _) as [n|]; [|discriminate].
  destruct (l !! n) as [a'|] eqn:E; [|discriminate]. intros [= <-].
  apply list_elem_of_In. eapply list_elem_of_lookup_2, E.
Qed.

Lemma py_setitem_insert {A : Type} (l l' : list A) (i : Z) (v : A) :
  py_setitem l i v = Ok l' -> exists n, l' = <[n := v]> l.
Proof.
  unfold py_setitem. destruct (py_index _ _) as [n|]; [|discriminate].
  intros [= <-]. now exists n.
Qed.

(** Whatever the cells, the loop of [lock_piece] keeps the size of the
    board when it does not raise. *)
Lemma lock_cells_dims (kind : string) (cs : list (Z * Z)) :
  forall (s s' : GameState.t) (b : bool),
    grid_dims (grid s) = true ->
    lock_cells kind cs s = Ok (b, s') ->
    grid_dims (grid s') = true.
Proof.
  induction cs as [|[cx cy] cs IH]; intros s s' b Hg; cbn [lock_cells].
  - now intros [= _ <-].
  - destruct (cy <? 0); [now intros [= _ <-]|].
    destruct (py_getitem (grid s) cy) as [row| |] eqn:Hrow; try discriminate.
    cbn [mbind result_bind].
    destruct (py_setitem row cx (Some kind)) as [row'| |] eqn:Hset;
      try discriminate.
    cbn [mbind result_bind].
    destruct (py_setitem (grid s) cy row') as [g'| |] eqn:Hset';
      try discriminate.
    cbn [mbind result_bind]. apply IH. cbn [grid set_grid].
    apply py_setitem_insert in Hset' as [n ->].
    apply grid_dims_insert; [exact Hg|].
    rewrite (py_setitem_length _ _ _ _ Hset).
    destruct (grid_dims_inv _ Hg) as [_ Hrows].
    apply Hrows. eapply py_getitem_In, Hrow.
Qed.

Lemma spawn_next_grid (shuffle : nat -> list string) (s s' : GameState.t)
  (n n' : nat) :
  spawn_next shuffle s n = Ok (s', n') -> grid s' = grid s.
Proof.
  unfold spawn_next, mbind, Rand_bind. intros H.
  destruct (fill_queue shuffle _ s n) as [[s1 n1]| |] eqn:Hfill; try discriminate.
  destruct (fill_queue_inv _ _ _ _ _ _ Hfill) as (b & q & ->).
  destruct (next_queue _) as [|kind rest]; [discriminate|].
  unfold lift in H. destruct (collides _ _) as [[|]| |]; try discriminate;
    injection H as <- <-; reflexivity.
Qed.

Lemma hold_swap_grid (shuffle : nat -> list string) (s s' : GameState.t)
  (n n' : nat) :
  hold_swap shuffle s n = Ok (s', n') -> grid s' = grid s.
Proof.
  unfold hold_swap. intros H.
  destruct (current s) as [cur|]; [|now injection H as <- <-].
  destruct (can_hold s); cbn [negb] in H; [|now injection H as <- <-].
  unfold mbind, Rand_bind in H. destruct (hold s) as [held|].
  - unfold lift in H. destruct (collides _ _) as [[|]| |]; try discriminate;
      injection H as <- <-; reflexivity.
  - destruct (spawn_next shuffle _ n) as [[s1 n1]| |] eqn:Hs; try discriminate.
    injection H as <- <-. cbn [grid set_can_hold].
    now rewrite (spawn_next_grid _ _ _ _ _ Hs).
Qed.

Lemma try_move_grid (s s' : GameState.t) (dx dy : Z) (b : bool) :
  try_move s dx dy = Ok (b, s') -> grid s' = grid s.
Proof.
  unfold try_move. destruct (current s) as [cur|]; [|now intros [= _ <-]].
  destruct (collides s _) as [[|]| |]; cbn; try discriminate;
    intros [= _ <-]; reflexivity.
Qed.

Lemma try_kicks_grid (s : GameState.t) (cur : Piece.t) (to_r : Z)
  (kicks : list Kick) (res : bool * string) (s' : GameState.t) :
  try_kicks s cur to_r kicks = Ok (res, s') -> grid s' = grid s.
Proof.
  induction kicks as [|[dx dy] kicks IH]; cbn [try_kicks].
  - intros [= _ <-]. reflexivity.
  - destruct (collides s _) as [[|]| |]; cbn; try discriminate; [exact IH|].
    destruct (is_t_spin _ _ _) as [t| |]; cbn; try discriminate.
    intros [= _ <-]. reflexivity.
Qed.

Lemma try_rotate_grid (s s' : GameState.t) (dr : Z) (res : bool * string) :
  try_rotate s dr = Ok (res, s') -> grid s' = grid s.
Proof.
  unfold try_rotate. destruct (current s) as [cur|]; [|now intros [= _ <-]].
  destruct (subscript ROTATED _) as [rots| |]; cbn; try discriminate.
  destruct (py_mod (Piece.r cur) _) as [from_r| |]; cbn; try discriminate.
  destruct (py_mod (Piece.r cur + dr) _) as [to_r| |]; cbn; try discriminate.
  apply try_kicks_grid.
Qed.

Lemma score_lines_grid (s : GameState.t) (n : Z) (tspin : string) :
  grid (score_lines s n tspin) = grid s.
Proof. unfold score_lines. repeat case_if; reflexivity. Qed.

Lemma lock_piece_dims (shuffle : nat -> list string) (s s' : GameState.t)
  (n n' : nat) (cleared : Z) :
  grid_dims (grid s) = true ->
  lock_piece shuffle s n = Ok ((cleared, s'), n') ->
  grid_dims (grid s') = true.
Proof.
  intros Hg. unfold lock_piece.
  destruct (current s) as [cur|]; [|now intros [= _ <- _]].
  unfold mbind, Rand_bind, lift.
  destruct (Piece.cells cur) as [cs| |]; try discriminate.
  destruct (lock_cells _ cs s) as [[[|] s1]| |] eqn:Hlock; try discriminate.
  - intros [= _ <- _]. eapply lock_cells_dims; eauto.
  - pose proof (lock_cells_dims _ _ _ _ _ Hg Hlock) as Hg1.
    destruct (clear_lines_on_board s1 Hg1) as [-> Hg2].
    destruct (spawn_next shuffle _ n) as [[s3 n3]| |] eqn:Hs; try discriminate.
    intros [= _ <- _]. rewrite (spawn_next_grid _ _ _ _ _ Hs). exact Hg2.
Qed.

Lemma gravity_tick_dims (shuffle : nat -> list string) (down : bool)
  (s s' : GameState.t) (n n' : nat) :
  grid_dims (grid s) = true ->
  gravity_tick shuffle down s n = Ok (s', n') ->
  grid_dims (grid s') = true.
Proof.
  intros Hg. unfold gravity_tick, mbind, Rand_bind, lift.
  destruct (try_move s 0 1) as [[[|] s1]| |] eqn:Hm; try discriminate.
  - apply try_move_grid in Hm. intros [= <- _].
    destruct down; cbn [grid set_score]; now rewrite Hm.
  - apply try_move_grid in Hm.
    destruct (lock_piece shuffle s1 n) as [[[c s2] n2]| |] eqn:Hl;
      try discriminate.
    apply lock_piece_dims in Hl; [|now rewrite Hm].
    destruct (c >? 0); intros [= <- _]; [|exact Hl].
    now rewrite score_lines_grid.
Qed.

Lemma gravity_loop_dims (shuffle : nat -> list string) (down : bool)
  (ticks : nat) :
  forall (s s' : GameState.t) (n n' : nat),
    grid_dims (grid s) = true ->
    gravity_loop shuffle ticks down s n = Ok (s', n') ->
    grid_dims (grid s') = true.
Proof.
  induction ticks as [|ticks IH]; intros s s' n n' Hg; cbn [gravity_loop].
  - now intros [= <- _].
  - unfold mbind, Rand_bind.
    destruct (gravity_tick shuffle down s n) as [[s1 n1]| |] eqn:Ht;
      try discriminate.
    apply IH. eapply gravity_tick_dims; eauto.
Qed.

Lemma auto_shift_grid (k : nat) (dx : Z) :
  forall s s' : GameState.t, auto_shift k dx s = Ok s' -> grid s' = grid s.
Proof.
  induction k as [|k IH]; intros s s'; cbn [auto_shift].
  - now intros [= <-].
  - destruct (try_move s dx 0) as [[[|] s1]| |] eqn:Hm; cbn; try discriminate.
    + intros H. rewrite (IH _ _ H). eapply try_move_grid, Hm.
    + intros [= <-]. eapply try_move_grid, Hm.
Qed.

Lemma new_game_dims (shuffle : nat -> list string) (start_level : Z)
  (s : GameState.t) (n n' : nat) :
  new_game shuffle start_level n = Ok (s, n') -> grid_dims (grid s) = true.
Proof.
  unfold new_game, mbind, Rand_bind, refill_bag. intros H.
  rewrite (spawn_next_grid _ _ _ _ _ H). reflexivity.
Qed.

Lemma space_key_grid (fuel : nat) (s s' : GameState.t) :
  space_key fuel s = Ok s' -> grid s' = grid s.
Proof.
  unfold space_key. destruct (current s) as [cur|]; [|now intros [= <-]].
  destruct (hard_drop_anim s); cbn [negb]; [now intros [= <-]|].
  destruct (hard_drop_distance fuel s) as [d| |]; cbn; try discriminate.
  destruct (d >? 0); now intros [= <-].
Qed.

(** X10. The board keeps its size of [PLAY_ROWS] rows of [PLAY_COLS] cells
    through the game loop: through every key event that reaches the game
    logic (restart included; the pause menu, which can replace the state
    by a loaded one, is outside) and through every frame, with its
    hard-drop landing, auto-shift, spawn and gravity steps, locks and line
    clears. *)
Theorem board_size_kept (shuffle : nat -> list string) (h h' : locals)
  (n n' : nat) :
  grid_dims (grid (state h)) = true ->
  (forall start_level fuel k,
      keydown shuffle start_level fuel k h n = Ok (h', n') ->
      grid_dims (grid (state h')) = true)
  /\ (forall anim_done shifts ticks,
        frame shuffle anim_done shifts ticks h n = Ok (h', n') ->
        grid_dims (grid (state h')) = true).
Proof.
  intros Hg. split.
  - intros start_level fuel k. unfold keydown, mbind, Rand_bind.
    assert (Hrest : forall (h1 : locals) (n1 : nat),
              grid_dims (grid (state h1)) = true ->
              (if game_over (state h1) || paused (state h1)
               then mret h1
               else
                 match k with
                 | K_LEFT =>
                     '(_, s) ← lift (try_move (state h1) (-1) 0);
                     mret {| state := s; left := true; right := false;
                             down := down h1; last_lr := Some "L";
                             ok_tspin := ok_tspin h1 |}
                 | K_RIGHT =>
                     '(_, s) ← lift (try_move (state h1) 1 0);
                     mret {| state := s; left := false; right := true;
                             down := down h1; last_lr := Some "R";
                             ok_tspin := ok_tspin h1 |}
                 | K_DOWN =>
                     mret {| state := state h1; left := left h1;
                             right := right h1; down := true;
                             last_lr := last_lr h1; ok_tspin := ok_tspin h1 |}
                 | K_UP | K_z => lift (rotate_key 1 h1)
                 | K_x => lift (rotate_key (-1) h1)
                 | K_a | K_s => lift (rotate_key 2 h1)
                 | K_SPACE =>
                     s ← lift (space_key fuel (state h1));
                     mret (with_state s h1)
                 | K_c | K_LSHIFT | K_RSHIFT =>
                     s ← hold_swap shuffle (state h1); mret (with_state s h1)
                 | K_r | K_other => mret h1
                 end) n1 = Ok (h', n') ->
              grid_dims (grid (state h')) = true).
    { intros h1 n1 Hg1.
      destruct (game_over (state h1) || paused (state h1));
        [now intros [= <- _]|].
      assert (Hrot : forall dr, lift (rotate_key dr h1) n1 = Ok (h', n') ->
                grid_dims (grid (state h')) = true).
      { intros dr. unfold lift, rotate_key.
        destruct (try_rotate (state h1) dr) as [[res s1]| |] eqn:Hr;
          cbn; try discriminate.
        intros [= <- _]. cbn [state]. now rewrite (try_rotate_grid _ _ _ _ Hr). }
      destruct k; try (now intros [= <- _]); try (apply Hrot);
        unfold mbind, Rand_bind, lift.
      - destruct (try_move (state h1) (-1) 0) as [[b s1]| |] eqn:Hm;
          try discriminate.
        intros [= <- _]. cbn [state]. now rewrite (try_move_grid _ _ _ _ _ Hm).
      - destruct (try_move (state h1) 1 0) as [[b s1]| |] eqn:Hm;
          try discriminate.
        intros [= <- _]. cbn [state]. now rewrite (try_move_grid _ _ _ _ _ Hm).
      - destruct (space_key fuel (state h1)) as [s1| |] eqn:Hs;
          try discriminate.
        intros [= <- _]. cbn [state with_state].
        now rewrite (space_key_grid _ _ _ Hs).
      - destruct (hold_swap shuffle (state h1) n1) as [[s1 n2]| |] eqn:Hs;
          try discriminate.
        intros [= <- _]. cbn [state with_state].
        now rewrite (hold_swap_grid _ _ _ _ _ Hs).
      - destruct (hold_swap shuffle (state h1) n1) as [[s1 n2]| |] eqn:Hs;
          try discriminate.
        intros [= <- _]. cbn [state with_state].
        now rewrite (hold_swap_grid _ _ _ _ _ Hs).
      - destruct (hold_swap shuffle (state h1) n1) as [[s1 n2]| |] eqn:Hs;
          try discriminate.
        intros [= <- _]. cbn [state with_state].
        now rewrite (hold_swap_grid _ _ _ _ _ Hs). }
    destruct k; try (apply (Hrest h n Hg)).
    destruct (new_game shuffle start_level n) as [[s1 n1]| |] eqn:Hnew;
      try discriminate.
    apply Hrest. cbn [state with_state]. eapply new_game_dims, Hnew.
  - intros anim_done shifts ticks. unfold frame.
    destruct (game_over (state h)); [now intros [= <- _]|].
    destruct (paused (state h)); [now intros [= <- _]|].
    unfold mbind, Rand_bind.
    assert (H1 : forall s1 n1,
              (if hard_drop_anim (state h) && is_not_None (current (state h))
                  && anim_done
               then finish_hard_drop shuffle (state h)
               else mret (state h)) n = Ok (s1, n1) ->
              grid_dims (grid s1) = true).
    { intros s1 n1. destruct (_ && _); [|now intros [= <- _]].
      unfold finish_hard_drop. destruct (current (state h)) as [cur|];
        [|now intros [= <- _]].
      unfold mbind, Rand_bind.
      destruct (lock_piece shuffle _ n) as [[[c s2] n2]| |] eqn:Hl;
        try discriminate.
      intros [= <- _]. cbn [grid set_hard_drop_anim].
      eapply lock_piece_dims; [|exact Hl]. exact Hg. }
    destruct ((if hard_drop_anim (state h) && is_not_None (current (state h))
                  && anim_done
               then finish_hard_drop shuffle (state h)
               else mret (state h)) n) as [[s1 n1]| |]; try discriminate.
    specialize (H1 s1 n1 eq_refl).
    assert (H2 : forall s2,
              match last_lr h with
              | Some "L" => if left h then auto_shift shifts (-1) s1 else Ok s1
              | Some "R" => if right h then auto_shift shifts 1 s1 else Ok s1
              | _ => Ok s1
              end = Ok s2 -> grid s2 = grid s1).
    { intros s2 H.
      assert (Hshift : forall dx (b : bool),
                (if b then auto_shift shifts dx s1 else Ok s1) = Ok s2 ->
                grid s2 = grid s1).
      { intros dx [|]; [apply auto_shift_grid|now intros [= <-]]. }
      destruct (last_lr h) as [str|]; [|now injection H as <-].
      destruct (String.eqb_spec str "L") as [->|HL]; [eapply Hshift, H|].
      destruct (String.eqb_spec str "R") as [->|HR]; [eapply Hshift, H|].
      destruct str as [|a [|b str]]; try (now injection H as <-);
        destruct a as [[|] [|] [|] [|] [|] [|] [|] [|]];
        try (now injection H as <-); congruence. }
    unfold lift.
    destruct (match last_lr h with
              | Some "L" => if left h then auto_shift shifts (-1) s1 else Ok s1
              | Some "R" => if right h then auto_shift shifts 1 s1 else Ok s1
              | _ => Ok s1
              end) as [s2| |]; try discriminate.
    specialize (H2 s2 eq_refl).
    assert (H3 : forall s3 n3,
              match current s2 with
              | None => spawn_next shuffle s2
              | Some _ => mret s2
              end n1 = Ok (s3, n3) -> grid s3 = grid s2).
    { intros s3 n3. destruct (current s2); [now intros [= <- _]|].
      apply spawn_next_grid. }
    destruct (match current s2 with
              | None => spawn_next shuffle s2
              | Some _ => mret s2
              end n1) as [[s3 n3]| |]; try discriminate.
    specialize (H3 s3 n3 eq_refl).
    destruct (gravity_loop shuffle ticks (down h) s3 n3) as [[s4 n4]| |] eqn:Hl;
      try discriminate.
    intros [= <- _]. cbn [state with_state].
    eapply gravity_loop_dims; [|exact Hl]. now rewrite H3, H2.
Qed.

Lemma board_size_kept_witness :
  let s := playing (board [filled_except [3; 4; 5; 6]]) (Piece.mk "I" 3 18 0)
                   ["O"; "T"; "S"; "Z"; "J"; "L"] in
  let h := mk_locals s false false false None None in
  exists h',
    frame in_order false 0 1 h 0%nat = Ok (h', 0%nat)
    /\ grid_dims (grid (state h')) = true.
Proof.
  intros s h. eexists. split; [vm_compute; reflexivity|].
  refine (proj2 (board_size_kept in_order h _ 0%nat 0%nat _) false 0%nat 1%nat _).
  - vm_compute. reflexivity.
  - vm_compute. reflexivity.
Defined.

(** ** Hold *)

(** X11. [hold_swap] does nothing without an active piece or when hold is
    not allowed. Otherwise it puts the kind of the active piece in the
    hold slot, forbids further holds and leaves the board alone; when the
    slot held a kind, that kind becomes the active piece at the spawn
    position and neither queue nor bag is consumed. A second [hold_swap]
    right after a first is a no-op. *)
Theorem hold_swap_once (shuffle : nat -> list string) (s s' : GameState.t)
  (n n' : nat) :
  hold_swap shuffle s n = Ok (s', n') ->
  (current s = None \/ can_hold s = false -> s' = s /\ n' = n)
  /\ (forall cur,
        current s = Some cur -> can_hold s = true ->
        can_hold s' = false
        /\ hold s' = Some (Piece.kind cur)
        /\ grid s' = grid s
        /\ score s' = score s
        /\ (forall held,
              hold s = Some held ->
              current s' = Some (Piece.mk held 3 (-2) 0)
              /\ next_queue s' = next_queue s /\ bag s' = bag s /\ n' = n)
        /\ hold_swap shuffle s' n' = Ok (s', n')).
Proof.
  intros H. split.
  - unfold hold_swap in H. intros [Hc|Hc].
    + rewrite Hc in H. now injection H as <- <-.
    + destruct (current s); rewrite ?Hc in H; now injection H as <- <-.
  - intros cur Hcur Hcan.
    pose proof (hold_swap_grid _ _ _ _ _ H) as Hgrid.
    unfold hold_swap in H. rewrite Hcur, Hcan in H. cbn [negb] in H.
    unfold mbind, Rand_bind in H.
    assert (Hnoop : forall t m, can_hold t = false ->
                      hold_swap shuffle t m = Ok (t, m)).
    { intros t m Ht. unfold hold_swap. destruct (current t); [|reflexivity].
      now rewrite Ht. }
    destruct (hold s) as [held|] eqn:Hhold.
    + unfold lift in H. assert (Hx : spawn_x held = 3)
        by (unfold spawn_x; now destruct (negb _)).
      rewrite Hx in H.
      destruct (collides _ _) as [[|]| |]; try discriminate;
        injection H as <- <-;
        (split; [reflexivity|]); (split; [reflexivity|]);
        (split; [reflexivity|]); (split; [reflexivity|]);
        (split; [intros held' [= <-]; repeat split; reflexivity|]);
        now apply Hnoop.
    + destruct (spawn_next shuffle _ n) as [[s1 n1]| |] eqn:Hs; try discriminate.
      injection H as <- <-. cbn [can_hold hold grid score set_can_hold].
      unfold spawn_next, mbind, Rand_bind in Hs.
      destruct (fill_queue shuffle _ _ n) as [[s2 n2]| |] eqn:Hfill;
        try discriminate.
      destruct (fill_queue_inv _ _ _ _ _ _ Hfill) as (b & q & ->).
      destruct (next_queue _) as [|kind rest]; [discriminate|].
      unfold lift in Hs. 
      split; [reflexivity|]. split.
      { destruct (collides _ _) as [[|]| |]; try discriminate;
          injection Hs as <- <-; reflexivity. }
      split; [exact Hgrid|]. split.
      { destruct (collides _ _) as [[|]| |]; try discriminate;
          injection Hs as <- <-; reflexivity. }
      split; [intros held; discriminate|]. now apply Hnoop.
Qed.

Lemma hold_swap_once_witness :
  let s := set_hold (Some "I")
             (playing (board []) (Piece.mk "T" 5 9 2) ["O"; "S"; "Z"; "J"; "L"]) in
  exists s',
    hold_swap in_order s 0%nat = Ok (s', 0%nat)
    /\ hold s' = Some "T"
    /\ current s' = Some (Piece.mk "I" 3 (-2) 0)
    /\ hold_swap in_order s' 0%nat = Ok (s', 0%nat).
Proof.
  intros s. eexists. split; [vm_compute; reflexivity|].
  destruct (hold_swap_once in_order s _ 0%nat 0%nat
              ltac:(vm_compute; reflexivity)) as [_ H].
  destruct (H (Piece.mk "T" 5 9 2) eq_refl eq_refl)
    as (_ & Hhold & _ & _ & Hheld & Hagain).
  destruct (Hheld "I" eq_refl) as (Hcur & _).
  split; [exact Hhold|]. split; [exact Hcur|exact Hagain].
Defined.

(** ** Scoring beyond the table *)

(** X12. A call of [score_lines] with no line (a count of 0 or less)
    ends the combo (combo -1), clears the back-to-back flag and leaves
    lines and level as they are. It awards nothing when the flag is
    'none', and 100 points for any other flag: the last branch of the
    T-spin table also takes the count 0. *)
Theorem score_lines_no_line (s : GameState.t) (n : Z) (tspin : string) :
  n <= 0 ->
  let s' := score_lines s n tspin in
  combo s' = -1
  /\ back_to_back s' = false
  /\ GameState.lines s' = GameState.lines s
  /\ level s' = level s
  /\ score s' = score s + (if String.eqb tspin "none" then 0 else 100).
Proof.
  intros Hn s'. subst s'. unfold score_lines.
  destruct (tspin =? "none")%string; cbn [negb];
    (destruct (n >? 0) eqn:E; [lia|]);
    repeat case_if; cbn; repeat split; try reflexivity; lia.
Qed.

Lemma score_lines_no_line_witness :
  score (score_lines GameState.new 0 "tspin") = 100
  /\ score (score_lines GameState.new 0 "none") = 0.
Proof.
  split.
  - exact (proj2 (proj2 (proj2 (proj2
             (score_lines_no_line GameState.new 0 "tspin" ltac:(lia)))))).
  - exact (proj2 (proj2 (proj2 (proj2
             (score_lines_no_line GameState.new 0 "none" ltac:(lia)))))).
Defined.

Lemma int_times_1_5_ge (pts : Z) : 0 <= pts -> pts <= int_times_1_5 pts.
Proof.
  intros H. rewrite int_times_1_5_floor by exact H.
  apply Z.div_le_lower_bound; lia.
Qed.



(** ** The order of the pieces *)

Lemma shuffles_cons (shuffle : nat -> list string) (n k : nat) :
  shuffles shuffle n (S k) = shuffle n ++ shuffles shuffle (S n) k.
Proof. reflexivity. Qed.

(** Filling the queue moves kinds from the front of the bag to the back
    of the queue and appends whole shuffles to the bag: read as one
    sequence, queue then bag, nothing is lost or reordered. *)
Lemma fill_queue_order (shuffle : nat -> list string) (k : nat) :
  forall (s s1 : GameState.t) (n n1 : nat),
    fill_queue shuffle k s n = Ok (s1, n1) ->
    (n <= n1)%nat
    /\ next_queue s1 ++ bag s1
       = next_queue s ++ bag s ++ shuffles shuffle n (n1 - n)
    /\ length (next_queue s1) = (length (next_queue s) + k)%nat.
Proof.
  induction k as [|k IH]; intros s s1 n n1 H.
  - injection H as <- <-. rewrite Nat.sub_diag. cbn. rewrite !app_nil_r.
    repeat split; lia.
  - cbn [fill_queue] in H. unfold mbind, Rand_bind in H.
    destruct (bag s) as [|k0 b0] eqn:Eb.
    + unfold refill_bag in H. rewrite Eb in H. cbn [app bag set_bag] in H.
      destruct (shuffle n) as [|k1 b1] eqn:Es; [discriminate|].
      apply IH in H as (Hle & Horder & Hlen).
      cbn [next_queue bag set_next_queue set_bag] in *.
      split; [lia|]. split.
      * rewrite Horder. replace (n1 - n)%nat with (S (n1 - S n)) by lia.
        rewrite shuffles_cons, Es. rewrite <- !app_assoc. reflexivity.
      * rewrite Hlen, length_app. cbn. lia.
    + unfold mret, Rand_ret in H. rewrite Eb in H.
      apply IH in H as (Hle & Horder & Hlen).
      cbn [next_queue bag set_next_queue set_bag] in *.
      split; [lia|]. split.
      * rewrite Horder. rewrite <- !app_assoc. reflexivity.
      * rewrite Hlen, length_app. cbn. lia.
Qed.

(** X14. The pieces come out in the order of the queue, then of the bag,
    then of the shuffles: after [spawn_next] the kind of the new piece,
    followed by the queue and the bag, is the old queue followed by the
    old bag and by the shuffles drawn in between. The lookahead left in
    the queue is at least four kinds. *)
Theorem spawn_next_order (shuffle : nat -> list string) (s s' : GameState.t)
  (n n' : nat) :
  spawn_next shuffle s n = Ok (s', n') ->
  exists kind,
    current s' = Some (Piece.mk kind 3 (-2) 0)
    /\ (n <= n')%nat
    /\ kind :: next_queue s' ++ bag s'
       = next_queue s ++ bag s ++ shuffles shuffle n (n' - n)
    /\ (4 <= length (next_queue s'))%nat.
Proof.
  unfold spawn_next, mbind, Rand_bind. intros H.
  destruct (fill_queue shuffle _ s n) as [[s1 n1]| |] eqn:Hfill; try discriminate.
  destruct (fill_queue_order _ _ _ _ _ _ Hfill) as (Hle & Horder & Hlen).
  destruct (next_queue s1) as [|kind rest] eqn:Eq; [discriminate|].
  assert (Hx : spawn_x kind = 3) by (unfold spawn_x; now destruct (negb _)).
  rewrite Hx in H. unfold lift in H. exists kind.
  destruct (collides _ _) as [[|]| |]; try discriminate;
    injection H as <- <-; cbn; (split; [reflexivity|]); (split; [exact Hle|]);
    (split; [exact Horder|]); cbn in Hlen; lia.
Qed.

Lemma spawn_next_order_witness :
  let s := set_bag ["J"; "L"]
             (set_current None
                (playing (board []) (Piece.mk "O" 0 0 0) ["T"; "I"; "O"])) in
  exists s',
    spawn_next in_order s 0%nat = Ok (s', 0%nat)
    /\ current s' = Some (Piece.mk "T" 3 (-2) 0)
    /\ next_queue s' = ["I"; "O"; "J"; "L"].
Proof.
  intros s. eexists. split; [vm_compute; reflexivity|].
  destruct (spawn_next_order in_order s _ 0%nat 0%nat
              ltac:(vm_compute; reflexivity)) as (kind & Hcur & _).
  split; [|vm_compute; reflexivity].
  rewrite Hcur. vm_compute in Hcur. injection Hcur as <-. reflexivity.
Defined.

(** ** A new game *)

Lemma known_kind_cases (k : string) :
  known_kind k = true ->
  k = "I" \/ k = "O" \/ k = "T" \/ k = "S" \/ k = "Z" \/ k = "J" \/ k = "L".
Proof.
  unfold known_kind. cbn [keys map fst SHAPES existsb]. intros H.
  repeat (apply orb_true_iff in H as [H|H];
          [apply String.eqb_eq in H; tauto|]).
  discriminate.
Qed.



(** ** Gravity and the hard-drop distance *)

(** What the loop of [hard_drop_distance] has seen when it returns. *)
Lemma hard_drop_loop_inv (s : GameState.t) (p : Piece.t) (fuel : nat) :
  forall dist d : Z,
    hard_drop_loop fuel s p dist = Ok d ->
    dist <= d
    /\ (forall dy, dist < dy <= d -> collides s (dropped p dy) = Ok false)
    /\ collides s (dropped p (d + 1)) = Ok true.
Proof.
  induction fuel as [|fuel IH]; intros dist d; cbn [hard_drop_loop];
    [discriminate|].
  destruct (collides s _) as [[|]| |] eqn:Hc; cbn; try discriminate.
  - intros [= <-]. split; [lia|]. split; [intros dy Hdy; lia|].
    rewrite <- Hc. unfold dropped. now rewrite Z.add_assoc.
  - intros H. apply IH in H as (Hle & Hfree & Hstop).
    split; [lia|]. split; [|exact Hstop].
    intros dy Hdy. destruct (Z.eq_dec dy (dist + 1)) as [->|Hne].
    + rewrite <- Hc. unfold dropped. now rewrite Z.add_assoc.
    + apply Hfree. lia.
Qed.

Lemma dropped_dropped (p : Piece.t) (a b : Z) :
  dropped (dropped p a) b = dropped p (a + b).
Proof. unfold dropped. cbn. f_equal. lia. Qed.

Lemma try_move_down (s : GameState.t) (q : Piece.t) (c : bool) :
  current s = Some q ->
  collides s (dropped q 1) = Ok c ->
  try_move s 0 1
  = Ok (negb c, if c then s else set_current (Some (dropped q 1)) s).
Proof.
  intros Hcur Hc. unfold try_move. rewrite Hcur.
  rewrite Z.add_0_r. fold (dropped q 1). rewrite Hc. now destruct c.
Qed.

Lemma fallen_zero (down : bool) (q : Piece.t) (s : GameState.t) :
  current s = Some q -> fallen down 0 q s = s.
Proof.
  intros Hcur. unfold fallen, dropped. rewrite Z.add_0_r.
  replace (score s + (if down then 0 else 0)) with (score s)
    by (destruct down; lia).
  destruct s, q. cbn in *. now rewrite Hcur.
Qed.

(** While the rows below are free, each gravity step moves the piece one
    row down. *)
Lemma gravity_loop_falls (shuffle : nat -> list string) (down : bool)
  (k : nat) :
  forall (s : GameState.t) (q : Piece.t) (n : nat),
    current s = Some q ->
    (forall dy, 0 < dy <= Z.of_nat k -> collides s (dropped q dy) = Ok false) ->
    gravity_loop shuffle k down s n = Ok (fallen down (Z.of_nat k) q s, n).
Proof.
  induction k as [|k IH]; intros s q n Hcur Hfree.
  - cbn [gravity_loop]. unfold mret, Rand_ret. do 2 f_equal.
    symmetry. now apply fallen_zero.
  - cbn [gravity_loop]. unfold mbind at 1, Rand_bind at 1.
    unfold gravity_tick. unfold mbind at 1, Rand_bind at 1. unfold lift at 1.
    rewrite (try_move_down s q false Hcur (Hfree 1 ltac:(lia))).
    cbn [negb]. unfold mret at 1, Rand_ret at 1.
    rewrite (IH _ (dropped q 1)).
    + do 2 f_equal. unfold fallen. rewrite dropped_dropped.
      replace (Z.of_nat (S k)) with (1 + Z.of_nat k) by lia.
      generalize (Z.of_nat k). intros z.
      destruct s, down; unfold set_score, set_current; cbn; f_equal; lia.
    + now destruct down.
    + intros dy Hdy. rewrite dropped_dropped.
      rewrite <- (Hfree (1 + dy) ltac:(lia)).
      apply collides_grid. now destruct down.
Qed.

(** X16. When [hard_drop_distance] returns d, d gravity steps bring the
    active piece exactly d rows down, to the place a hard drop aims at,
    without locking it; a soft drop earns d points on the way (the hard
    drop 2 * d). The next gravity step cannot move the piece any
    further. *)
Theorem gravity_reaches_hard_drop (shuffle : nat -> list string)
  (s : GameState.t) (p : Piece.t) (fuel : nat) (d : Z) (down : bool)
  (n : nat) :
  current s = Some p ->
  hard_drop_distance fuel s = Ok d ->
  0 <= d
  /\ gravity_loop shuffle (Z.to_nat d) down s n = Ok (fallen down d p s, n)
  /\ current (fallen down d p s) = Some (dropped p d)
  /\ score (fallen down d p s) = score s + (if down then d else 0)
  /\ try_move (fallen down d p s) 0 1 = Ok (false, fallen down d p s).
Proof.
  intros Hcur Hd. unfold hard_drop_distance in Hd. rewrite Hcur in Hd.
  apply hard_drop_loop_inv in Hd as (Hle & Hfree & Hstop).
  split; [exact Hle|]. split; [|split; [reflexivity|split; [reflexivity|]]].
  - rewrite (gravity_loop_falls shuffle down (Z.to_nat d) s p n Hcur).
    + now rewrite Z2Nat.id.
    + intros dy Hdy. apply Hfree. lia.
  - rewrite (try_move_down _ (dropped p d) true); [reflexivity|reflexivity|].
    rewrite dropped_dropped, <- Hstop. now apply collides_grid.
Qed.

Lemma gravity_reaches_hard_drop_witness :
  let p := Piece.mk "O" 3 0 0 in
  let s := playing (board (only [4] :: replicate 9 (only []))) p
                   ["I"; "O"; "T"; "S"; "Z"] in
  gravity_loop in_order 7 true s 0%nat = Ok (fallen true 7 p s, 0%nat).
Proof.
  intros p s.
  destruct (gravity_reaches_hard_drop in_order s p 64 7 true 0%nat eq_refl)
    as (_ & H & _).
  - vm_compute. reflexivity.
  - exact H.
Defined.

(** ** Saving what was loaded *)



(** ** The playlist *)

(** X18. On an audio manager as [__init__] leaves it (enabled exactly when
    the playlist is not empty, index on a track), [next] and [prev] never
    raise, keep the index on a track and play that track; [prev] undoes
    [next] and [next] undoes [prev], wrapping around at both ends. A
    disabled manager is left alone. *)
Theorem playlist_cycles (a : AudioManager.t) :
  AudioManager.ok a ->
  (AudioManager.enabled a = false ->
   AudioManager.next a = Ok (a, None) /\ AudioManager.prev a = Ok (a, None))
  /\ (AudioManager.enabled a = true ->
      exists a1 a2 p1 p2,
        AudioManager.next a = Ok (a1, Some p1)
        /\ AudioManager.prev a = Ok (a2, Some p2)
        /\ AudioManager.ok a1 /\ AudioManager.ok a2
        /\ AudioManager.playlist a1 !! Z.to_nat (AudioManager.index a1) = Some p1
        /\ AudioManager.playlist a2 !! Z.to_nat (AudioManager.index a2) = Some p2
        /\ fst <$> AudioManager.prev a1 = Ok a
        /\ fst <$> AudioManager.next a2 = Ok a).
Proof.
  intros [Hen Hidx]. split.
  - intros Hoff. unfold AudioManager.next, AudioManager.prev, AudioManager.step.
    rewrite Hoff. now split.
  - intros Hon. specialize (Hidx Hon). rewrite Hon in Hen.
    symmetry in Hen. apply Nat.ltb_lt in Hen.
    set (len := Z.of_nat (length (AudioManager.playlist a))) in *.
    assert (Hlen : 0 < len) by (subst len; lia).
    assert (Hstep : forall delta,
              exists a' p,
                AudioManager.step delta a = Ok (a', Some p)
                /\ a' = AudioManager.mk (AudioManager.playlist a)
                          ((AudioManager.index a + delta) mod len) true
                /\ AudioManager.playlist a'
                     !! Z.to_nat (AudioManager.index a') = Some p).
    { intros delta. unfold AudioManager.step. rewrite Hon. cbn [negb].
      unfold py_mod. fold len.
      destruct (Z.eqb_spec len 0) as [E|_]; [lia|]. cbn [mbind result_bind].
      unfold AudioManager.play_current.
      cbn [AudioManager.enabled AudioManager.playlist AudioManager.index negb].
      pose proof (Z.mod_pos_bound (AudioManager.index a + delta) len Hlen) as Hb.
      destruct (py_getitem_nonneg (AudioManager.playlist a)
                  ((AudioManager.index a + delta) mod len) Hb)
        as (p & -> & Hp).
      cbn [mbind result_bind]. eexists _, p. split; [reflexivity|].
      split; [reflexivity|exact Hp]. }
    assert (Hok : forall i, AudioManager.ok
              (AudioManager.mk (AudioManager.playlist a) (i mod len) true)).
    { intros i. split;
        cbn [AudioManager.enabled AudioManager.playlist AudioManager.index].
      - symmetry. now apply Nat.ltb_lt.
      - intros _. apply Z.mod_pos_bound. exact Hlen. }
    assert (Hback : forall delta delta',
              delta + delta' = 0 ->
              fst <$> AudioManager.step delta'
                        (AudioManager.mk (AudioManager.playlist a)
                           ((AudioManager.index a + delta) mod len) true)
              = Ok a).
    { intros delta delta' Hsum. unfold AudioManager.step.
      cbn [AudioManager.enabled AudioManager.playlist AudioManager.index negb].
      unfold py_mod. fold len.
      destruct (Z.eqb_spec len 0) as [E|_]; [lia|]. cbn [mbind result_bind].
      assert (E : ((AudioManager.index a + delta) mod len + delta') mod len
                  = AudioManager.index a).
      { rewrite Zplus_mod_idemp_l.
        replace (AudioManager.index a + delta + delta')
          with (AudioManager.index a) by lia.
        apply Z.mod_small. exact Hidx. }
      rewrite E. unfold AudioManager.play_current.
      cbn [AudioManager.enabled AudioManager.playlist AudioManager.index negb].
      destruct (py_getitem_nonneg (AudioManager.playlist a)
                  (AudioManager.index a) Hidx) as (p & -> & _).
      cbn. f_equal. destruct a. cbn in *. now rewrite Hon. }
    destruct (Hstep 1) as (a1 & p1 & Hn & Ea1 & Hp1).
    destruct (Hstep (-1)) as (a2 & p2 & Hp & Ea2 & Hp2).
    exists a1, a2, p1, p2.
    split; [exact Hn|]. split; [exact Hp|].
    split; [subst a1; apply Hok|]. split; [subst a2; apply Hok|].
    split; [exact Hp1|]. split; [exact Hp2|].
    split; [subst a1; now apply Hback|subst a2; now apply Hback].
Qed.

Lemma playlist_cycles_witness :
  let a := AudioManager.init ["a.mp3"; "b.ogg"; "c.wav"] in
  exists a2, AudioManager.prev a = Ok (a2, Some "c.wav")
             /\ fst <$> AudioManager.next a2 = Ok a.
Proof.
  intros a.
  destruct (playlist_cycles a) as [_ H].
  - split; [reflexivity|]. intros _. cbn. lia.
  - destruct (H eq_refl) as (a1 & a2 & p1 & p2 & _ & Hp & _ & _ & _ & _ & _ & Hn).
    exists a2. split; [|exact Hn].
    rewrite Hp. vm_compute in Hp. injection Hp as <- <-. reflexivity.
Defined.

(** ** The invariants of the data model are kept *)

Lemma invariants_parts (s : GameState.t) :
  invariants s = true <->
  grid_dims (grid s) = true
  /\ forallb (forallb cell_ok) (grid s) = true
  /\ forallb known_kind (bag s) = true
  /\ forallb known_kind (next_queue s) = true
  /\ hold_ok (hold s) = true
  /\ current_ok (current s) = true
  /\ 0 <= score s /\ 0 <= GameState.lines s /\ 1 <= level s
  /\ -1 <= combo s.
Proof.
  unfold invariants, hold_ok, current_ok.
  rewrite !andb_true_iff, !Z.leb_le. tauto.
Qed.

Lemma piece_ok_known (p : Piece.t) :
  piece_ok p = true -> known_kind (Piece.kind p) = true.
Proof.
  unfold piece_ok. destruct (dict_get ROTATIONS _) as [n|] eqn:E;
    [|discriminate].
  intros _. apply dict_get_In in E. cbn in E.
  repeat (destruct E as [[= <- _]|E]; [reflexivity|]). destruct E.
Qed.

Lemma known_piece_ok (k : string) (x y : Z) :
  known_kind k = true -> piece_ok (Piece.mk k x y 0) = true.
Proof.
  intros H.
  destruct (known_kind_cases k H) as [->|[->|[->|[->|[->|[->| ->]]]]]];
    reflexivity.
Qed.

Lemma piece_ok_moved (p : Piece.t) (x y : Z) :
  piece_ok p = true ->
  piece_ok (Piece.mk (Piece.kind p) x y (Piece.r p)) = true.
Proof. intros H. exact H. Qed.

Lemma forallb_insert {A : Type} (f : A -> bool) (l : list A) (n : nat) (v : A) :
  forallb f l = true -> f v = true -> forallb f (<[n := v]> l) = true.
Proof.
  revert n. induction l as [|a l IH]; intros n Hl Hv; [exact Hl|].
  cbn [forallb] in Hl. apply andb_true_iff in Hl as [Ha Hl].
  destruct n as [|n].
  - change (<[0%nat := v]> (a :: l)) with (v :: l). cbn [forallb].
    now rewrite Hv, Hl.
  - change (<[S n := v]> (a :: l)) with (a :: <[n := v]> l). cbn [forallb].
    now rewrite Ha, IH.
Qed.

(** The loop of [lock_piece] changes the board and the game-over flag
    only, and writes nothing but the kind it is given. *)
Lemma lock_cells_inv (kind : string) (cs : list (Z * Z)) :
  forall (s s' : GameState.t) (b : bool),
    known_kind kind = true ->
    forallb (forallb cell_ok) (grid s) = true ->
    lock_cells kind cs s = Ok (b, s') ->
    exists g go,
      s' = set_game_over go (set_grid g s)
      /\ forallb (forallb cell_ok) g = true.
Proof.
  induction cs as [|[cx cy] cs IH]; intros s s' b Hk Hcells; cbn [lock_cells].
  - intros [= _ <-]. exists (grid s), (game_over s). split; [now destruct s|].
    exact Hcells.
  - destruct (cy <? 0).
    + intros [= _ <-]. exists (grid s), true. split; [now destruct s|].
      exact Hcells.
    + destruct (py_getitem (grid s) cy) as [row| |] eqn:Hrow; try discriminate.
      cbn [mbind result_bind].
      destruct (py_setitem row cx (Some kind)) as [row'| |] eqn:Hset;
        try discriminate.
      cbn [mbind result_bind].
      destruct (py_setitem (grid s) cy row') as [g'| |] eqn:Hset';
        try discriminate.
      cbn [mbind result_bind]. intros H.
      apply IH in H as (g & go & -> & Hg); [|exact Hk|].
      * exists g, go. split; [now destruct s|exact Hg].
      * cbn [grid set_grid].
        apply py_setitem_insert in Hset' as [n ->].
        apply py_setitem_insert in Hset as [m ->].
        apply forallb_insert; [exact Hcells|].
        apply forallb_insert; [|exact Hk].
        rewrite forallb_forall in Hcells. apply Hcells.
        eapply py_getitem_In, Hrow.
Qed.

Lemma clear_lines_cells_ok (s : GameState.t) :
  forallb (forallb cell_ok) (grid s) = true ->
  forallb (forallb cell_ok) (grid (snd (clear_lines s))) = true.
Proof.
  intros H. rewrite clear_lines_kept. cbn zeta. cbn [snd grid set_grid].
  apply forallb_app_true.
  - apply forallb_replicate. reflexivity.
  - now apply forallb_filter.
Qed.

Lemma clear_lines_set_grid (s : GameState.t) :
  snd (clear_lines s) = set_grid (grid (snd (clear_lines s))) s.
Proof. rewrite clear_lines_kept. cbn zeta. cbn [snd]. now destruct s. Qed.

Lemma fill_queue_known (shuffle : nat -> list string) (k : nat) :
  shuffles_known shuffle ->
  forall (s s1 : GameState.t) (n n1 : nat),
    forallb known_kind (bag s) = true ->
    forallb known_kind (next_queue s) = true ->
    fill_queue shuffle k s n = Ok (s1, n1) ->
    exists b q,
      s1 = set_next_queue q (set_bag b s)
      /\ forallb known_kind b = true /\ forallb known_kind q = true.
Proof.
  intros Hsh. induction k as [|k IH]; intros s s1 n n1 Hb Hq H.
  - injection H as <- <-. exists (bag s), (next_queue s).
    split; [now destruct s|now split].
  - cbn [fill_queue] in H. unfold mbind, Rand_bind in H.
    assert (Hstep : forall s0 n0,
              forallb known_kind (bag s0) = true ->
              forallb known_kind (next_queue s0) = true ->
              (exists b q, s0 = set_next_queue q (set_bag b s)) ->
              match bag s0 with
              | [] => lift (Raise IndexError)
              | k0 :: rest =>
                  fill_queue shuffle k
                    (set_next_queue (next_queue s0 ++ [k0]) (set_bag rest s0))
              end n0 = Ok (s1, n1) ->
              exists b q,
                s1 = set_next_queue q (set_bag b s)
                /\ forallb known_kind b = true /\ forallb known_kind q = true).
    { intros s0 n0 Hb0 Hq0 (b0 & q0 & ->) H0.
      cbn [bag next_queue set_bag set_next_queue] in *.
      destruct b0 as [|k0 rest]; [discriminate|].
      cbn [forallb] in Hb0. apply andb_true_iff in Hb0 as [Hk0 Hrest].
      apply IH in H0 as (b & q & -> & Hb' & Hq').
      - exists b, q. split; [now destruct s|now split].
      - exact Hrest.
      - cbn [next_queue set_next_queue]. rewrite forallb_app, Hq0.
        cbn [forallb andb]. now rewrite Hk0. }
    destruct (bag s) as [|k0 b0] eqn:Eb.
    + unfold refill_bag in H. rewrite Eb in H. cbn [app] in H.
      eapply Hstep; [| | |exact H].
      * cbn [bag set_bag]. apply Hsh.
      * exact Hq.
      * exists (shuffle n), (next_queue s). now destruct s.
    + unfold mret, Rand_ret in H. eapply Hstep; [| | |exact H].
      * now rewrite Eb.
      * exact Hq.
      * exists (bag s), (next_queue s). now destruct s.
Qed.

Ltac inv_parts :=
  repeat match goal with
         | H : invariants _ = true |- _ =>
             apply invariants_parts in H;
             destruct H as (?I1 & ?I2 & ?I3 & ?I4 & ?I5 & ?I6 & ?I7 & ?I8
                            & ?I9 & ?I10)
         end.

Lemma spawn_next_invariants (shuffle : nat -> list string)
  (s s' : GameState.t) (n n' : nat) :
  shuffles_known shuffle ->
  invariants s = true ->
  spawn_next shuffle s n = Ok (s', n') ->
  invariants s' = true.
Proof.
  intros Hsh Hinv. inv_parts. unfold spawn_next, mbind, Rand_bind. intros H.
  destruct (fill_queue shuffle _ s n) as [[s1 n1]| |] eqn:Hfill; try discriminate.
  destruct (fill_queue_known _ _ Hsh _ _ _ _ I3 I4 Hfill)
    as (b & q & -> & Hb & Hq).
  cbn [next_queue set_next_queue] in H.
  destruct q as [|kind rest]; [discriminate|].
  cbn [forallb] in Hq. apply andb_true_iff in Hq as [Hkind Hrest].
  assert (Hx : spawn_x kind = 3) by (unfold spawn_x; now destruct (negb _)).
  rewrite Hx in H. unfold lift in H.
  destruct (collides _ _) as [[|]| |]; try discriminate;
    injection H as <- <-; apply invariants_parts;
    cbn; repeat split; auto using known_piece_ok.
Qed.

Lemma try_move_invariants (s s' : GameState.t) (dx dy : Z) (b : bool) :
  invariants s = true -> try_move s dx dy = Ok (b, s') -> invariants s' = true.
Proof.
  intros Hinv. unfold try_move.
  destruct (current s) as [cur|] eqn:Hcur; [|now intros [= _ <-]].
  destruct (collides s _) as [[|]| |]; cbn; try discriminate;
    intros [= _ <-]; [exact Hinv|].
  inv_parts. apply invariants_parts. rewrite Hcur in *.
  cbn; repeat split; auto.
Qed.

Lemma try_rotate_invariants (s s' : GameState.t) (dr : Z)
  (res : bool * string) :
  invariants s = true -> try_rotate s dr = Ok (res, s') -> invariants s' = true.
Proof.
  intros Hinv. unfold try_rotate.
  destruct (current s) as [cur|] eqn:Hcur; [|now intros [= _ <-]].
  unfold subscript.
  destruct (dict_get ROTATED (Piece.kind cur)) as [rots|] eqn:Hk;
    [|discriminate].
  destruct (ROTATED_count _ _ Hk) as [Hcount Hpos].
  cbn [mbind result_bind]. unfold py_mod.
  destruct (Z.eqb_spec (Z.of_nat (length rots)) 0) as [E|_]; [lia|].
  cbn [mbind result_bind]. destruct res as [b t]. intros H.
  destruct (try_kicks_outcome _ _ _ _ _ _ _ H) as [Hf Ht].
  destruct b; [|now destruct (Hf eq_refl) as [-> _]].
  destruct (Ht eq_refl) as (k & _ & -> & _).
  inv_parts. apply invariants_parts. cbn; repeat split; auto.
  unfold piece_ok. cbn [candidate Piece.kind Piece.r]. rewrite Hcount.
  pose proof (Z.mod_pos_bound (Piece.r cur + dr) (Z.of_nat (length rots))
                ltac:(lia)) as Hb.
  apply andb_true_iff. split; lia.
Qed.

Lemma score_lines_invariants (s : GameState.t) (n : Z) (tspin : string) :
  invariants s = true -> 0 <= n -> invariants (score_lines s n tspin) = true.
Proof.
  intros Hinv Hn. inv_parts. apply invariants_parts.
  unfold score_lines.
  destruct (negb (tspin =? "none")%string);
    repeat case_if; cbn in *; split_andb; repeat split; auto; try lia;
    try (match goal with
         | |- context [int_times_1_5 ?x] =>
             pose proof (int_times_1_5_ge x ltac:(lia)); lia
         end);
    try (apply Z.add_nonneg_nonneg; [assumption|];
         apply Z.div_pos; lia).
Qed.

Lemma hold_swap_invariants (shuffle : nat -> list string)
  (s s' : GameState.t) (n n' : nat) :
  shuffles_known shuffle ->
  invariants s = true ->
  hold_swap shuffle s n = Ok (s', n') ->
  invariants s' = true.
Proof.
  intros Hsh Hinv. unfold hold_swap.
  destruct (current s) as [cur|] eqn:Hcur; [|now intros [= <- _]].
  destruct (can_hold s); cbn [negb]; [|now intros [= <- _]].
  unfold mbind, Rand_bind.
  assert (Hkind : known_kind (Piece.kind cur) = true).
  { inv_parts. rewrite Hcur in *. now apply piece_ok_known. }
  destruct (hold s) as [held|] eqn:Hhold.
  - unfold lift. inv_parts. rewrite Hhold in *. cbn [hold_ok] in *.
    destruct (collides _ _) as [[|]| |]; try discriminate;
      intros [= <- _]; apply invariants_parts;
      cbn; repeat split; auto;
      assert (Hx : spawn_x held = 3) by (unfold spawn_x; now destruct (negb _));
      rewrite Hx; now apply known_piece_ok.
  - destruct (spawn_next shuffle _ n) as [[s1 n1]| |] eqn:Hs; try discriminate.
    intros [= <- _].
    apply spawn_next_invariants in Hs; [|exact Hsh|].
    + inv_parts. apply invariants_parts. cbn; repeat split; auto.
    + inv_parts. apply invariants_parts. cbn; repeat split; auto.
Qed.

Lemma lock_piece_invariants (shuffle : nat -> list string)
  (s s' : GameState.t) (n n' : nat) (cleared : Z) :
  shuffles_known shuffle ->
  invariants s = true ->
  lock_piece shuffle s n = Ok ((cleared, s'), n') ->
  invariants s' = true /\ 0 <= cleared.
Proof.
  intros Hsh Hinv. unfold lock_piece.
  destruct (current s) as [cur|] eqn:Hcur;
    [|intros [= <- <- _]; split; [exact Hinv|lia]].
  unfold mbind, Rand_bind, lift.
  destruct (Piece.cells cur) as [cs| |]; try discriminate.
  assert (Hkind : known_kind (Piece.kind cur) = true).
  { inv_parts. rewrite Hcur in *. now apply piece_ok_known. }
  destruct (lock_cells _ cs s) as [[b s1]| |] eqn:Hlock; try discriminate.
  assert (Hdims1 : grid_dims (grid s1) = true).
  { inv_parts. eapply lock_cells_dims; eauto. }
  assert (Hinv1 : invariants s1 = true).
  { inv_parts. destruct (lock_cells_inv _ _ _ _ _ Hkind I2 Hlock)
      as (g & go & -> & Hg).
    apply invariants_parts. cbn in *. repeat split; auto. }
  destruct b.
  - intros [= <- <- _]. split; [exact Hinv1|lia].
  - destruct (clear_lines_on_board s1 Hdims1) as [Hclear Hdims2].
    pose proof (clear_lines_cells_ok s1) as Hcells2.
    rewrite Hclear in *. cbn [snd grid set_grid] in Hcells2.
    destruct (spawn_next shuffle _ n) as [[s3 n3]| |] eqn:Hs; try discriminate.
    intros [= <- <- _]. split; [|lia].
    apply spawn_next_invariants in Hs; [exact Hs|exact Hsh|].
    inv_parts. apply invariants_parts. cbn. repeat split; auto.
Qed.

Lemma gravity_tick_invariants (shuffle : nat -> list string) (down : bool)
  (s s' : GameState.t) (n n' : nat) :
  shuffles_known shuffle ->
  invariants s = true ->
  gravity_tick shuffle down s n = Ok (s', n') ->
  invariants s' = true.
Proof.
  intros Hsh Hinv. unfold gravity_tick, mbind, Rand_bind, lift.
  destruct (try_move s 0 1) as [[[|] s1]| |] eqn:Hm; try discriminate;
    apply try_move_invariants in Hm; try exact Hinv.
  - intros [= <- _]. destruct down; [|exact Hm].
    inv_parts. apply invariants_parts. cbn. repeat split; auto. lia.
  - destruct (lock_piece shuffle s1 n) as [[[c s2] n2]| |] eqn:Hl;
      try discriminate.
    apply lock_piece_invariants in Hl as [Hinv2 Hc]; [|exact Hsh|exact Hm].
    destruct (c >? 0); intros [= <- _]; [|exact Hinv2].
    now apply score_lines_invariants.
Qed.

Lemma gravity_loop_invariants (shuffle : nat -> list string) (down : bool)
  (ticks : nat) :
  shuffles_known shuffle ->
  forall (s s' : GameState.t) (n n' : nat),
    invariants s = true ->
    gravity_loop shuffle ticks down s n = Ok (s', n') ->
    invariants s' = true.
Proof.
  intros Hsh. induction ticks as [|ticks IH]; intros s s' n n' Hinv;
    cbn [gravity_loop].
  - now intros [= <- _].
  - unfold mbind, Rand_bind.
    destruct (gravity_tick shuffle down s n) as [[s1 n1]| |] eqn:Ht;
      try discriminate.
    apply IH. eapply gravity_tick_invariants; eauto.
Qed.

Lemma auto_shift_invariants (k : nat) (dx : Z) :
  forall s s' : GameState.t,
    invariants s = true -> auto_shift k dx s = Ok s' -> invariants s' = true.
Proof.
  induction k as [|k IH]; intros s s' Hinv; cbn [auto_shift].
  - now intros [= <-].
  - destruct (try_move s dx 0) as [[[|] s1]| |] eqn:Hm; cbn; try discriminate;
      apply try_move_invariants in Hm; try exact Hinv.
    + now apply IH.
    + now intros [= <-].
Qed.

Lemma space_key_invariants (fuel : nat) (s s' : GameState.t) :
  invariants s = true -> space_key fuel s = Ok s' -> invariants s' = true.
Proof.
  intros Hinv. unfold space_key.
  destruct (current s) as [cur|] eqn:Hcur; [|now intros [= <-]].
  destruct (hard_drop_anim s); cbn [negb]; [now intros [= <-]|].
  destruct (hard_drop_distance fuel s) as [d| |]; cbn; try discriminate.
  destruct (d >? 0) eqn:Ed; intros [= <-]; [|exact Hinv].
  inv_parts. apply invariants_parts. cbn. repeat split; auto. lia.
Qed.

Lemma finish_hard_drop_invariants (shuffle : nat -> list string)
  (s s' : GameState.t) (n n' : nat) :
  shuffles_known shuffle ->
  invariants s = true ->
  finish_hard_drop shuffle s n = Ok (s', n') ->
  invariants s' = true.
Proof.
  intros Hsh Hinv. unfold finish_hard_drop.
  destruct (current s) as [cur|] eqn:Hcur; [|now intros [= <- _]].
  unfold mbind, Rand_bind.
  destruct (lock_piece shuffle _ n) as [[[c s2] n2]| |] eqn:Hl;
    try discriminate.
  intros [= <- _].
  apply lock_piece_invariants in Hl as [Hinv2 _]; [|exact Hsh|].
  - inv_parts. apply invariants_parts. cbn. repeat split; auto.
  - inv_parts. apply invariants_parts. rewrite Hcur in *.
    cbn. repeat split; auto.
Qed.

Lemma new_game_invariants (shuffle : nat -> list string) (start_level : Z)
  (s : GameState.t) (n n' : nat) :
  shuffles_known shuffle ->
  1 <= start_level ->
  new_game shuffle start_level n = Ok (s, n') ->
  invariants s = true.
Proof.
  intros Hsh Hlevel. unfold new_game, mbind, Rand_bind, refill_bag. intros H.
  apply spawn_next_invariants in H; [exact H|exact Hsh|].
  apply invariants_parts. cbn. repeat split; try reflexivity; try lia.
  apply Hsh.
Qed.

(** X19. The game loop keeps the invariants of the data model. From a
    state with a board of the right size, known kinds in the board, the
    bag, the queue, the hold slot and the active piece, a rotation index
    within the rotation count, a score and a line total that are not
    negative, a level of 1 or more and a combo of -1 or more, every key
    event that reaches the game logic (restart from a start level of 1 or
    more included; the pause menu is outside) and every frame lead to such
    a state again, as long as the shuffles give non-empty lists of known
    kinds. *)
Theorem game_loop_keeps_invariants (shuffle : nat -> list string)
  (h h' : locals) (n n' : nat) :
  shuffles_known shuffle ->
  invariants (state h) = true ->
  (forall start_level fuel k,
      1 <= start_level ->
      keydown shuffle start_level fuel k h n = Ok (h', n') ->
      invariants (state h') = true)
  /\ (forall anim_done shifts ticks,
        frame shuffle anim_done shifts ticks h n = Ok (h', n') ->
        invariants (state h') = true).
Proof.
  intros Hsh Hinv. split.
  - intros start_level fuel k Hlevel. unfold keydown, mbind, Rand_bind.
    assert (Hrest : forall (h1 : locals) (n1 : nat),
              invariants (state h1) = true ->
              (if game_over (state h1) || paused (state h1)
               then mret h1
               else
                 match k with
                 | K_LEFT =>
                     '(_, s) ← lift (try_move (state h1) (-1) 0);
                     mret {| state := s; left := true; right := false;
                             down := down h1; last_lr := Some "L";
                             ok_tspin := ok_tspin h1 |}
                 | K_RIGHT =>
                     '(_, s) ← lift (try_move (state h1) 1 0);
                     mret {| state := s; left := false; right := true;
                             down := down h1; last_lr := Some "R";
                             ok_tspin := ok_tspin h1 |}
                 | K_DOWN =>
                     mret {| state := state h1; left := left h1;
                             right := right h1; down := true;
                             last_lr := last_lr h1; ok_tspin := ok_tspin h1 |}
                 | K_UP | K_z => lift (rotate_key 1 h1)
                 | K_x => lift (rotate_key (-1) h1)
                 | K_a | K_s => lift (rotate_key 2 h1)
                 | K_SPACE =>
                     s ← lift (space_key fuel (state h1));
                     mret (with_state s h1)
                 | K_c | K_LSHIFT | K_RSHIFT =>
                     s ← hold_swap shuffle (state h1); mret (with_state s h1)
                 | K_r | K_other => mret h1
                 end) n1 = Ok (h', n') ->
              invariants (state h') = true).
    { intros h1 n1 Hinv1.
      destruct (game_over (state h1) || paused (state h1));
        [now intros [= <- _]|].
      assert (Hrot : forall dr, lift (rotate_key dr h1) n1 = Ok (h', n') ->
                invariants (state h') = true).
      { intros dr. unfold lift, rotate_key.
        destruct (try_rotate (state h1) dr) as [[res s1]| |] eqn:Hr;
          cbn; try discriminate.
        intros [= <- _]. cbn [state]. eapply try_rotate_invariants; eauto. }
      assert (Hhold : (s ← hold_swap shuffle (state h1); mret (with_state s h1))
                        n1 = Ok (h', n') ->
                invariants (state h') = true).
      { unfold mbind, Rand_bind.
        destruct (hold_swap shuffle (state h1) n1) as [[s1 n2]| |] eqn:Hs;
          try discriminate.
        intros [= <- _]. cbn [state with_state].
        eapply hold_swap_invariants; eauto. }
      destruct k; try (now intros [= <- _]); try (apply Hrot);
        try (apply Hhold); unfold mbind, Rand_bind, lift.
      - destruct (try_move (state h1) (-1) 0) as [[b s1]| |] eqn:Hm;
          try discriminate.
        intros [= <- _]. cbn [state]. eapply try_move_invariants; eauto.
      - destruct (try_move (state h1) 1 0) as [[b s1]| |] eqn:Hm;
          try discriminate.
        intros [= <- _]. cbn [state]. eapply try_move_invariants; eauto.
      - destruct (space_key fuel (state h1)) as [s1| |] eqn:Hs;
          try discriminate.
        intros [= <- _]. cbn [state with_state].
        eapply space_key_invariants; eauto. }
    destruct k; try (apply (Hrest h n Hinv)).
    destruct (new_game shuffle start_level n) as [[s1 n1]| |] eqn:Hnew;
      try discriminate.
    apply Hrest. cbn [state with_state]. eapply new_game_invariants; eauto.
  - intros anim_done shifts ticks. unfold frame.
    destruct (game_over (state h)); [now intros [= <- _]|].
    destruct (paused (state h)); [now intros [= <- _]|].
    unfold mbind, Rand_bind.
    assert (H1 : forall s1 n1,
              (if hard_drop_anim (state h) && is_not_None (current (state h))
                  && anim_done
               then finish_hard_drop shuffle (state h)
               else mret (state h)) n = Ok (s1, n1) ->
              invariants s1 = true).
    { intros s1 n1. destruct (_ && _); [|now intros [= <- _]].
      now apply finish_hard_drop_invariants. }
    destruct ((if hard_drop_anim (state h) && is_not_None (current (state h))
                  && anim_done
               then finish_hard_drop shuffle (state h)
               else mret (state h)) n) as [[s1 n1]| |]; try discriminate.
    specialize (H1 s1 n1 eq_refl).
    assert (H2 : forall s2,
              match last_lr h with
              | Some "L" => if left h then auto_shift shifts (-1) s1 else Ok s1
              | Some "R" => if right h then auto_shift shifts 1 s1 else Ok s1
              | _ => Ok s1
              end = Ok s2 -> invariants s2 = true).
    { intros s2 H.
      assert (Hshift : forall dx (b : bool),
                (if b then auto_shift shifts dx s1 else Ok s1) = Ok s2 ->
                invariants s2 = true).
      { intros dx [|]; [now apply auto_shift_invariants|now intros [= <-]]. }
      destruct (last_lr h) as [str|]; [|now injection H as <-].
      destruct (String.eqb_spec str "L") as [->|HL]; [eapply Hshift, H|].
      destruct (String.eqb_spec str "R") as [->|HR]; [eapply Hshift, H|].
      destruct str as [|a [|b str]]; try (now injection H as <-);
        destruct a as [[|] [|] [|] [|] [|] [|] [|] [|]];
        try (now injection H as <-); congruence. }
    unfold lift.
    destruct (match last_lr h with
              | Some "L" => if left h then auto_shift shifts (-1) s1 else Ok s1
              | Some "R" => if right h then auto_shift shifts 1 s1 else Ok s1
              | _ => Ok s1
              end) as [s2| |]; try discriminate.
    specialize (H2 s2 eq_refl).
    assert (H3 : forall s3 n3,
              match current s2 with
              | None => spawn_next shuffle s2
              | Some _ => mret s2
              end n1 = Ok (s3, n3) -> invariants s3 = true).
    { intros s3 n3. destruct (current s2); [now intros [= <- _]|].
      now apply spawn_next_invariants. }
    destruct (match current s2 with
              | None => spawn_next shuffle s2
              | Some _ => mret s2
              end n1) as [[s3 n3]| |]; try discriminate.
    specialize (H3 s3 n3 eq_refl).
    destruct (gravity_loop shuffle ticks (down h) s3 n3) as [[s4 n4]| |] eqn:Hl;
      try discriminate.
    intros [= <- _]. cbn [state with_state].
    eapply gravity_loop_invariants; eauto.
Qed.

Lemma in_order_known : shuffles_known in_order.
Proof. intros m. split; [discriminate|reflexivity]. Qed.

Lemma game_loop_keeps_invariants_witness :
  let s := playing (board [filled_except [3; 4; 5; 6]]) (Piece.mk "I" 3 18 0)
                   ["O"; "T"; "S"; "Z"; "J"; "L"] in
  let h := mk_locals s false false false None None in
  exists h',
    frame in_order false 0 1 h 0%nat = Ok (h', 0%nat)
    /\ GameState.lines (state h') = 1
    /\ invariants (state h') = true.
Proof.
  intros s h. eexists. split; [vm_compute; reflexivity|].
  split; [vm_compute; reflexivity|].
  refine (proj2 (game_loop_keeps_invariants in_order h _ 0%nat 0%nat
                   in_order_known _) false 0%nat 1%nat _).
  - vm_compute. reflexivity.
  - vm_compute. reflexivity.
Defined.
